(** * hdl_registers: register arrays and enumeration fields

  A shallow embedding of [hdl_registers/register_array.py] and
  [hdl_registers/enum.py], with the properties of the register-map
  specification that concern them.

  Python [int] is [Z], [str] is [string], a list is a [list] read with
  stdpp's lookup.  A method that mutates [self] is a computation in a small
  state-and-exception monad over the object; a method that only reads is a
  function of the object returning either the exception or the value. *)

From Stdlib Require Import ZArith Lia Ascii String.
From stdpp Require Import base decidable option list strings.

Local Open Scope Z_scope.

(** ** Register modes

    The access modes of a register: ['r'], ['w'], ['r_w'], ['wpulse'] and
    ['r_wpulse'] in the docstring of [RegisterArray.__init__]. *)

Inductive Mode : Type := r | w | r_w | wpulse | r_wpulse.

#[global] Instance Mode_eq_dec : EqDecision Mode.
Proof. solve_decision. Defined.

(** ** Exceptions

    Every [raise] of the two modules raises Python's [ValueError]; the
    constructors name the raise sites and carry the values that the message
    interpolates.  [EnumType]'s two conversions raise it as well.  The
    statement of an enumeration class raises [ValueError] for a name that
    Python's [enum] reserves and [TypeError] for a name bound twice or a
    value that [int] does not take. *)

Inductive ValueError : Type :=
| atomic_invalid
    (* 'atomic must be None or "entry" or "all"' *)
| mode_conflict (mode : Mode) (atomic : option string)
    (* "Cannot append register with mode {mode}. ..." *)
| register_not_found (name array_name : string)
    (* 'Could not find register "{name}" within register array "{self.name}"' *)
| index_out_of_range (array_index : Z) (array_name : string) (length : Z)
    (* 'Index {array_index} out of range for register array ...' *)
| not_a_member (enum_name member_class member_name : string)
    (* the value to encode is no member of the enumeration *)
| code_without_member (enum_name : string) (unsigned_binary : Z)
    (* the code to decode is the code of no member *)
| sunder_reserved (key : string)
    (* '_sunder_ names, such as {key}, are reserved for future Enum use' *)
| invalid_member_name.
    (* 'invalid enum member name(s) ...': a member called mro or nothing *)

Inductive TypeError : Type :=
| key_reused
    (* '{key} already defined as ...', a name bound twice in a class body *)
| int_arguments (args : list Z).
    (* int() with a base and a first argument that is no string *)

(** The error kinds of the specification, by raise site. *)
Definition is_ModeConflictError (e : ValueError) : bool :=
  match e with mode_conflict _ _ => true | _ => false end.

Definition is_RangeError (e : ValueError) : bool :=
  match e with
  | index_out_of_range _ _ _ | not_a_member _ _ _ | code_without_member _ _ =>
      true
  | _ => false
  end.

Definition is_LookupError (e : ValueError) : bool :=
  match e with register_not_found _ _ => true | _ => false end.

(** ** A state-and-exception monad over the object a method mutates *)

Module Method.
Definition t (S E A : Type) : Type := S -> (E + A) * S.

Definition ret {S E A} (a : A) : t S E A := fun s => (inr a, s).
Definition raise {S E A} (e : E) : t S E A := fun s => (inl e, s).
Definition bind {S E A B} (m : t S E A) (k : A -> t S E B) : t S E B :=
  fun s => match m s with
           | (inr a, s') => k a s'
           | (inl e, s') => (inl e, s')
           end.
Definition get {S E} : t S E S := fun s => (inr s, s).
Definition modify {S E} (f : S -> S) : t S E unit := fun s => (inr tt, f s).
(** [if c: raise e] *)
Definition raise_if {S E} (c : bool) (e : E) : t S E unit :=
  if c then raise e else ret tt.
End Method.

(** What a call on [self] returns or raises. *)
Definition outcome {S E A} (call : Method.t S E A) (self : S) : E + A :=
  fst (call self).

(** The state of [self] after the call. *)
Definition state_after {S E A} (call : Method.t S E A) (self : S) : S :=
  snd (call self).

Declare Scope method_scope.
Delimit Scope method_scope with method.
Notation "x <~ m ;; k" := (Method.bind m (fun x => k))
  (at level 100, m at next level, right associativity) : method_scope.
Notation "m ;;; k" := (Method.bind m (fun _ => k))
  (at level 100, right associativity) : method_scope.

(** ** Register *)

Module Register.
(** Modelled from the spec: the class [Register] of
    [hdl_registers/register.py], which is not among the sources.  The
    specification gives a register a name, an index, a mode (one of the five
    access modes), a description and an ordered sequence of fields.  [Mode]
    holds exactly the valid modes, so the constructor is total.  The fields,
    none at construction and never touched by [RegisterArray], are left
    out. *)
Record t : Type := mk {
  name : string;
  index : Z;
  mode : Mode;
  description : string;
}.

(** [Register(name, index, mode, description)] *)
Definition __init__ (name : string) (index : Z) (mode : Mode)
    (description : string) : t :=
  {| name := name; index := index; mode := mode;
     description := description |}.
End Register.

(** ** RegisterArray *)

Module RegisterArray.
Record t : Type := mk {
  atomic : option string;
  name : string;
  base_index : Z;
  length : Z;
  description : string;
  registers : list Register.t;
}.

(** Python truth value of [self.atomic]: [None] and the empty string are
    false, every other string is true. *)
Definition truthy (atomic : option string) : bool :=
  match atomic with
  | None => false
  | Some s => negb (bool_decide (s = ""%string))
  end.

(** [atomic not in (None, "row", "all")] *)
Definition atomic_allowed (atomic : option string) : bool :=
  bool_decide (atomic = None) || bool_decide (atomic = Some "row"%string)
  || bool_decide (atomic = Some "all"%string).

(** [len(self.registers)] *)
Definition len (self : t) : Z := Z.of_nat (List.length (registers self)).

Definition __init__ (name : string) (base_index length : Z)
    (description : string) (atomic : option string) : ValueError + t :=
  if negb (atomic_allowed atomic) then inl atomic_invalid
  else inr {| atomic := atomic; name := name; base_index := base_index;
              length := length; description := description;
              registers := [] |}.

(** [self.registers.append(register)] *)
Definition registers_append (register : Register.t) (self : t) : t :=
  {| atomic := atomic self; name := name self;
     base_index := base_index self; length := length self;
     description := description self;
     registers := registers self ++ [register] |}.

(** The guard of [append_register]: the three nested [if]s. *)
Definition mode_differs (self : t) (mode : Mode) : bool :=
  match registers self with
  | [] => false                               (* if self.registers: *)
  | first :: _ =>
      if truthy (atomic self)                 (* if self.atomic: *)
      then bool_decide (mode ≠ Register.mode first)
      else false
  end.

Definition append_register (name : string) (mode : Mode)
    (description : string) : Method.t t ValueError Register.t :=
  (self <~ Method.get ;;
   Method.raise_if (mode_differs self mode)
                   (mode_conflict mode (atomic self)) ;;;
   let index := len self in
   let register := Register.__init__ name index mode description in
   Method.modify (registers_append register) ;;;
   Method.ret register)%method.

(** The [for] loop of [get_register]: the first register of that name. *)
Fixpoint find_register (registers : list Register.t) (name : string)
    : option Register.t :=
  match registers with
  | [] => None
  | register :: rest =>
      if bool_decide (Register.name register = name) then Some register
      else find_register rest name
  end.

Definition get_register (self : t) (name : string)
    : ValueError + Register.t :=
  match find_register (registers self) name with
  | Some register => inr register
  | None => inl (register_not_found name (RegisterArray.name self))
  end.

(** The property [index]. *)
Definition index (self : t) : Z :=
  base_index self + length self * len self - 1.

Definition get_start_index (self : t) (array_index : Z) : ValueError + Z :=
  if bool_decide (array_index >= length self)
  then inl (index_out_of_range array_index (name self) (length self))
  else inr (base_index self + array_index * len self).

(** The arrays a program can build: a constructor call that returns,
    followed by calls of [append_register], each of which returns or
    raises. *)
Inductive constructed : t -> Prop :=
  | constructed_init name base_index length description atomic self :
      __init__ name base_index length description atomic = inr self ->
      constructed self
  | constructed_append name mode description self :
      constructed self ->
      constructed (state_after (append_register name mode description) self).

(** Every register's index is its position in the sequence. *)
Definition indexed (registers : list Register.t) : Prop :=
  forall (i : nat) (register : Register.t),
    registers !! i = Some register -> Register.index register = Z.of_nat i.
End RegisterArray.

(** ** Python's strings: length, item and slice *)

Module Str.
(** [len(s)] *)
Definition len (s : string) : Z := Z.of_nat (String.length s).

(** [s[i]]: counted from the end for a negative [i]; [None] where Python
    raises [IndexError]. *)
Definition item (s : string) (i : Z) : option ascii :=
  if bool_decide (0 <= i) then String.get (Z.to_nat i) s
  else if bool_decide (- len s <= i) then String.get (Z.to_nat (len s + i)) s
  else None.

(** A bound of a slice, brought into [0, len(s)]. *)
Definition clamp (s : string) (i : Z) : Z :=
  if bool_decide (i < 0) then Z.max (i + len s) 0 else Z.min i (len s).

(** [s[start:stop]], a bound left out being [None]. *)
Definition slice (s : string) (start stop : option Z) : string :=
  let first := from_option (clamp s) 0 start in
  let last := from_option (clamp s) (len s) stop in
  String.substring (Z.to_nat first) (Z.to_nat (last - first)) s.
End Str.

(** ** Python's enumerations

    What [enum.py] uses of Python's [enum] module: a member of an [IntEnum]
    class is an [int] that also carries a name and a [_value_]; the metaclass
    creates the members of a class body in the order of their definition,
    calling the class's [__new__] for each with the members created so far
    registered in the class. *)

Module Enum.
Record member : Type := mk_member {
  _class_ : string;   (* the name of the class of the member *)
  _name_ : string;    (* member.name *)
  int_ : Z;           (* the integer the member is: int(member) *)
  _value_ : Z;        (* member.value *)
}.

#[global] Instance member_eq_dec : EqDecision member.
Proof. solve_decision. Defined.

Record class : Type := mk_class {
  __name__ : string;
  (* declared with [SequentialEnum] among its bases *)
  sequential : bool;
  (* the names of the members that are no aliases, in definition order *)
  _member_names_ : list string;
  (* every name of the class body with its member, in definition order *)
  _member_map_ : list (string * member);
}.

(** [cls.__members__] is a read-only view of [_member_map_]. *)
Definition __members__ (cls : class) : list (string * member) :=
  _member_map_ cls.

(** [cls._member_map_[name]] *)
Fixpoint lookup_member (map : list (string * member)) (name : string)
    : option member :=
  match map with
  | [] => None
  | (key, m) :: rest =>
      if bool_decide (key = name) then Some m else lookup_member rest name
  end.

(** Iteration over the class, [list(cls)]:
    [(cls._member_map_[name] for name in cls._member_names_)]. *)
Definition members (cls : class) : list member :=
  omap (lookup_member (_member_map_ cls)) (_member_names_ cls).

(** [len(cls)] *)
Definition member_count (cls : class) : Z :=
  Z.of_nat (length (_member_names_ cls)).

(** [int.__new__] on integer arguments: [int()] is 0, [int(v)] is [v], and
    a second argument (a base) with a first one that is no string raises. *)
Definition int__new__ (args : list Z) : TypeError + Z :=
  match args with
  | [] => inr 0
  | [v] => inr v
  | _ => inl (int_arguments args)
  end.

(** What a [__new__] returns: the integer of the new object and the
    [_value_] it has set on it, if any. *)
Definition new_method : Type := class -> list Z -> TypeError + (Z * option Z).

(** [IntEnum] has [int]'s [__new__]; the metaclass then sets [_value_] to
    the [int] of the arguments. *)
Definition IntEnum__new__ : new_method :=
  fun cls args =>
    match int__new__ args with
    | inl e => inl e
    | inr obj => inr (obj, None)
    end.

(** The first existing member with the same [_value_]: the new name becomes
    an alias of it. *)
Fixpoint canonical_member (map : list (string * member)) (value : Z)
    : option member :=
  match map with
  | [] => None
  | (_, m) :: rest =>
      if bool_decide (_value_ m = value) then Some m
      else canonical_member rest value
  end.

(** One round of the metaclass's loop over the names of the class body. *)
Definition add_member (new : new_method) (cls : class)
    (definition : string * list Z) : TypeError + class :=
  let '(member_name, args) := definition in
  match new cls args with
  | inl e => inl e
  | inr (obj, value_set) =>
      let value := default obj value_set in
      let enum_member :=
        {| _class_ := __name__ cls; _name_ := member_name;
           int_ := obj; _value_ := value |} in
      match canonical_member (_member_map_ cls) value with
      | Some canonical =>
          inr {| __name__ := __name__ cls; sequential := sequential cls;
                 _member_names_ := _member_names_ cls;
                 _member_map_ :=
                   _member_map_ cls ++ [(member_name, canonical)] |}
      | None =>
          inr {| __name__ := __name__ cls; sequential := sequential cls;
                 _member_names_ := _member_names_ cls ++ [member_name];
                 _member_map_ :=
                   _member_map_ cls ++ [(member_name, enum_member)] |}
      end
  end.

Fixpoint add_members (new : new_method) (cls : class)
    (body : list (string * list Z)) : TypeError + class :=
  match body with
  | [] => inr cls
  | definition :: rest =>
      match add_member new cls definition with
      | inl e => inl e
      | inr cls' => add_members new cls' rest
      end
  end.

(** How a class statement ends when it returns no class: with the exception
    that Python raises or, for a class body that binds a name which defines
    no member, outside of what is modelled here.  Such a name (a private
    one, a dunder one, or one of the sunder names that configure the class)
    becomes an attribute of the class, and what follows depends on the
    attribute. *)
Inductive no_class : Type :=
| raises_TypeError (e : TypeError)
| raises_ValueError (e : ValueError)
| not_modelled (key : string).

Definition _is_dunder (name : string) : bool :=
  bool_decide (4 < Str.len name)
  && bool_decide (Str.slice name None (Some 2)
                  = Str.slice name (Some (-2)) None)
  && bool_decide (Str.slice name (Some (-2)) None = "__"%string)
  && negb (bool_decide (Str.item name 2 = Some "_"%char))
  && negb (bool_decide (Str.item name (-3) = Some "_"%char)).

Definition _is_sunder (name : string) : bool :=
  bool_decide (2 < Str.len name)
  && bool_decide (Str.item name 0 = Str.item name (-1))
  && bool_decide (Str.item name (-1) = Some "_"%char)
  && negb (bool_decide (Str.slice name (Some 1) (Some 2) = "_"%string))
  && negb (bool_decide (Str.slice name (Some (-2)) (Some (-1)) = "_"%string)).

(** [_is_private]: the third test of its condition compares a string with
    a list and so holds always. *)
Definition _is_private (cls_name name : string) : bool :=
  let pattern := ("_" ++ cls_name ++ "__")%string in
  let pat_len := Str.len pattern in
  bool_decide (pat_len < Str.len name)
  && String.prefix pattern name
  && (negb (bool_decide (Str.item name (-1) = Some "_"%char))
      || negb (bool_decide (Str.item name (-2) = Some "_"%char))).

(** The sunder names that [_EnumDict.__setitem__] lets pass. *)
Definition sunder_names : list string :=
  ["_order_"; "_generate_next_value_"; "_numeric_repr_"; "_missing_";
   "_ignore_"; "_iter_member_"; "_iter_member_by_value_";
   "_iter_member_by_def_"]%string.

(** [_EnumDict.__setitem__(key, value)], for a value that is an integer or a
    tuple of integers, on the member names recorded so far. *)
Definition __setitem__ (cls_name : string) (member_names : list string)
    (key : string) : no_class + list string :=
  if _is_private cls_name key then inl (not_modelled key)
  else if _is_sunder key then
    if bool_decide (key ∈ sunder_names) then inl (not_modelled key)
    else inl (raises_ValueError (sunder_reserved key))
  else if _is_dunder key then inl (not_modelled key)
  else if bool_decide (key ∈ member_names) then inl (raises_TypeError key_reused)
  else inr (member_names ++ [key]).

(** The class body runs: its bindings reach the namespace in order. *)
Fixpoint class_body (cls_name : string) (member_names : list string)
    (keys : list string) : no_class + list string :=
  match keys with
  | [] => inr member_names
  | key :: rest =>
      match __setitem__ cls_name member_names key with
      | inl e => inl e
      | inr member_names' => class_body cls_name member_names' rest
      end
  end.

(** The keys that the namespace records as member names. *)
Definition is_member_key (cls_name key : string) : bool :=
  negb (_is_private cls_name key) && negb (_is_sunder key)
  && negb (_is_dunder key).


(** The class statement: [body] lists the names bound in the class body
    with the arguments their values stand for ([A = ()] is [("A", [])],
    [A = 2] is [("A", [2])]).  The body runs on the namespace; then the
    metaclass refuses the member names [mro] and the empty one, and creates
    the members in order. *)
Definition class_statement (new : new_method) (name : string)
    (sequential : bool) (body : list (string * list Z)) : no_class + class :=
  match class_body name [] body.*1 with
  | inl e => inl e
  | inr member_names =>
      if bool_decide ("mro"%string ∈ member_names \/ ""%string ∈ member_names)
      then inl (raises_ValueError invalid_member_name)
      else
        match add_members new
                {| __name__ := name; sequential := sequential;
                   _member_names_ := []; _member_map_ := [] |} body with
        | inl e => inl (raises_TypeError e)
        | inr cls => inr cls
        end
  end.
End Enum.

(** ** enum.py *)

Module SequentialEnum.
(** [__new__]: the value is the number of members the class has so far. *)
Definition __new__ : Enum.new_method :=
  fun cls args =>
    let value := Z.of_nat (length (Enum.__members__ cls)) in
    match Enum.int__new__ args with
    | inl e => inl e
    | inr obj => inr (obj, Some value)
    end.

(** [class name(SequentialEnum): body] *)
Definition subclass (name : string) (body : list (string * list Z))
    : Enum.no_class + Enum.class :=
  Enum.class_statement __new__ name true body.

(** The state of a class while its members are created: no name is an
    alias, and every member carries its name and, as value, its position. *)
Record in_sequence (cls : Enum.class) : Prop := {
  no_alias : Enum._member_names_ cls = (Enum._member_map_ cls).*1;
  by_position :
    forall (i : nat) (key : string) (m : Enum.member),
      Enum._member_map_ cls !! i = Some (key, m) ->
      Enum._name_ m = key /\ Enum._value_ m = Z.of_nat i;
}.
End SequentialEnum.

Module IntEnum.
(** [class name(IntEnum): body] *)
Definition subclass (name : string) (body : list (string * list Z))
    : Enum.no_class + Enum.class :=
  Enum.class_statement Enum.IntEnum__new__ name false body.
End IntEnum.

(** ** Binary numerals

    The format specification [0{width}b] of an [int] and [int(text, 2)]. *)

Module Binary.
(** The binary digits of a positive number, most significant first, in front
    of [tail]. *)
Fixpoint digits_pos (p : positive) (tail : string) : string :=
  match p with
  | xH => String "1"%char tail
  | xO q => digits_pos q (String "0"%char tail)
  | xI q => digits_pos q (String "1"%char tail)
  end.

(** The digits of the absolute value. *)
Definition digits (n : Z) : string :=
  match n with
  | Z0 => "0"
  | Zpos p | Zneg p => digits_pos p ""
  end.

Fixpoint zeros (k : nat) : string :=
  match k with
  | O => ""
  | S k' => String "0"%char (zeros k')
  end.

(** [f"{n:0{width}b}"]: the sign, if negative, then zeros up to a total
    length of [width], then the digits; never truncated. *)
Definition format (width : Z) (n : Z) : string :=
  let sign : string := if bool_decide (n < 0) then "-" else "" in
  let body := digits n in
  let fill :=
    (Z.to_nat width - String.length sign - String.length body)%nat in
  sign +:+ zeros fill +:+ body.

(** The value of a run of binary digits after the digits of [acc]; [None]
    is Python's [ValueError] for a character that is no binary digit. *)
Fixpoint parse_digits (text : string) (acc : Z) : option Z :=
  match text with
  | EmptyString => Some acc
  | String c rest =>
      if bool_decide (c = "0"%char) then parse_digits rest (2 * acc)
      else if bool_decide (c = "1"%char) then parse_digits rest (2 * acc + 1)
      else None
  end.

(** [int(text, 2)] on an optional minus sign followed by at least one
    binary digit.  (Python also accepts surrounding blanks, a plus sign, a
    [0b] prefix and underscores between digits, which [format] never
    writes; they are read as errors here.) *)
Definition int (text : string) : option Z :=
  match text with
  | EmptyString => None
  | String c rest =>
      if bool_decide (c = "-"%char)
      then match rest with
           | EmptyString => None
           | _ => Z.opp <$> parse_digits rest 0
           end
      else parse_digits text 0
  end.
End Binary.

(** ** Field types *)

(** Modelled from the spec: [enum_bit_width] of
    [hdl_registers/register_field_type.py], which is not among the sources.
    The width of an enumeration is [ceil(log2(member_count))], at least 1. *)
Definition enum_bit_width (enum : Enum.class) : Z :=
  Z.max 1 (Z.log2_up (Enum.member_count enum)).

Module EnumType.
(** Modelled from the spec: the class [EnumType] of
    [hdl_registers/register_field_type.py], which is not among the sources.
    An enumeration has ordered distinct members; a member encodes to its
    0-based position in insertion order unless the enumeration is declared
    sequential, where it encodes to its declared value; a value that is no
    member of the enumeration does not encode, and a code with no matching
    member does not decode. *)
Record t : Type := mk { enum : Enum.class }.

Definition is_sequential (self : t) : bool := Enum.sequential (enum self).

Definition expected_bit_width (self : t) : Z := enum_bit_width (enum self).

(** The position of [m] among [ms], counted from [at_]. *)
Fixpoint ordinal (ms : list Enum.member) (m : Enum.member) (at_ : Z)
    : option Z :=
  match ms with
  | [] => None
  | m' :: rest =>
      if bool_decide (m' = m) then Some at_ else ordinal rest m (at_ + 1)
  end.

Definition convert_to_unsigned_binary (self : t) (bit_width : Z)
    (value : Enum.member) : ValueError + Z :=
  match ordinal (Enum.members (enum self)) value 0 with
  | None =>
      inl (not_a_member (Enum.__name__ (enum self)) (Enum._class_ value)
             (Enum._name_ value))
  | Some position =>
      inr (if is_sequential self then Enum._value_ value else position)
  end.

Definition convert_from_unsigned_binary (self : t) (bit_width : Z)
    (unsigned_binary : Z) : ValueError + Enum.member :=
  let ms := Enum.members (enum self) in
  let found :=
    if is_sequential self
    then List.find (fun m => bool_decide (Enum._value_ m = unsigned_binary)) ms
    else if bool_decide (0 <= unsigned_binary)
         then ms !! Z.to_nat unsigned_binary
         else None in
  match found with
  | Some m => inr m
  | None =>
      inl (code_without_member (Enum.__name__ (enum self)) unsigned_binary)
  end.
End EnumType.

(** The field types that [register_field_type] exports. *)
Inductive FieldType : Type :=
| Unsigned
| Signed
| UnsignedFixedPoint (max_bit_index min_bit_index : Z)
| SignedFixedPoint (max_bit_index min_bit_index : Z)
| Enumeration (enum_type : EnumType.t).

Module BitVector.
(** Modelled from the spec: the class [BitVector] of
    [hdl_registers/bit_vector.py], which is not among the sources.  A field
    has a name, a description, a base index, a width, a default value and a
    field type; the constructor stores its arguments. *)
Record t : Type := mk {
  name : string;
  base_index : Z;
  description : string;
  width : Z;
  default_value : string;
  field_type : FieldType;
}.

Definition __init__ (name : string) (base_index : Z) (description : string)
    (width : Z) (default_value : string) (field_type : FieldType) : t :=
  {| name := name; base_index := base_index; description := description;
     width := width; default_value := default_value;
     field_type := field_type |}.
End BitVector.

Module EnumField.
(** [EnumField.__init__]: the default value is formatted as the integer that
    the member is ([int.__format__], as Python 3.11 and later format a member
    of an [IntEnum]; earlier versions hand [_value_] to it, the same number
    for every member of a class declared with [IntEnum] itself). *)
Definition __init__ (name : string) (base_index : Z) (description : string)
    (enum : Enum.class) (default_value : Enum.member) : BitVector.t :=
  let width := enum_bit_width enum in
  BitVector.__init__ name base_index description width
    (Binary.format width (Enum.int_ default_value))
    (Enumeration (EnumType.mk enum)).
End EnumField.

(** ** The enumerations of the unit tests *)

Definition or_empty (name : string)
    (declared : Enum.no_class + Enum.class)
    : Enum.class :=
  match declared with
  | inr cls => cls
  | inl _ => Enum.mk_class name false [] []
  end.

(** [class ExampleEnum(IntEnum): A = 2; B = 3; C = 6; D = 12] *)
Definition ExampleEnum : Enum.class :=
  or_empty "ExampleEnum"
    (IntEnum.subclass "ExampleEnum"
       [("A", [2]); ("B", [3]); ("C", [6]); ("D", [12])]).

(** [class Example(SequentialEnum): A = (); B = (); C = (); D = ()] *)
Definition Example : Enum.class :=
  or_empty "Example"
    (SequentialEnum.subclass "Example"
       [("A", []); ("B", []); ("C", []); ("D", [])]).

(** [cls.A], [cls.B], ...: the member bound to a name. *)
Definition attr (cls : Enum.class) (name : string) : option Enum.member :=
  Enum.lookup_member (Enum._member_map_ cls) name.

(** ** The register arrays of the scenarios *)

(** [RegisterArray("array", base_index, 3, "", atomic)] as constructed. *)
Definition empty_array (base_index : Z) (atomic : option string)
    : RegisterArray.t :=
  RegisterArray.mk atomic "array" base_index 3 "" [].

(** Scenario 2: length 3, atomicity "row", the two registers [first] and
    [second] of mode [r]. *)
Definition row_array (base_index : Z) : RegisterArray.t :=
  state_after (RegisterArray.append_register "second" r "")
    (state_after (RegisterArray.append_register "first" r "")
       (empty_array base_index (Some "row"))).

(** A run of calls [append_register(name, mode, description)] on one array,
    in order; a call that raises leaves the array to the next call as it
    was. *)
Definition append_registers (calls : list (string * Mode * string))
    (self : RegisterArray.t) : RegisterArray.t :=
  foldl (fun array '(name, mode, description) =>
           state_after (RegisterArray.append_register name mode description)
             array)
        self calls.

(** The register that the call number [i] of a run appends to an array that
    held [held] registers before the run, when every call before it was
    accepted. *)
Definition appended (held : Z) (i : nat) (call : string * Mode * string)
    : Register.t :=
  let '(name, mode, description) := call in
  Register.__init__ name (held + Z.of_nat i) mode description.

(** * Properties *)

(** ** The monad's computations, run *)

Section Run.
Context {S E : Type}.

Lemma run_bind_inr {A B} (m : Method.t S E A) (k : A -> Method.t S E B)
    (s s' : S) (a : A) :
  m s = (inr a, s') -> Method.bind m k s = k a s'.
Proof. intros Hm. unfold Method.bind. now rewrite Hm. Qed.

Lemma run_bind_inl {A B} (m : Method.t S E A) (k : A -> Method.t S E B)
    (s s' : S) (e : E) :
  m s = (inl e, s') -> Method.bind m k s = (inl e, s').
Proof. intros Hm. unfold Method.bind. now rewrite Hm. Qed.
End Run.

(** ** RegisterArray *)

Section RegisterArrayProperties.
Import RegisterArray.

(** [append_register] in one step: it raises before it changes anything, or
    it appends the register it returns. *)
Lemma append_register_run (self : t) (name : string) (mode : Mode)
    (description : string) :
  append_register name mode description self =
    if mode_differs self mode
    then (inl (mode_conflict mode (atomic self)), self)
    else let register :=
           Register.__init__ name (len self) mode description in
         (inr register, registers_append register self).
Proof.
  unfold append_register.
  rewrite (run_bind_inr _ _ self self self) by reflexivity.
  destruct (mode_differs self mode) eqn:Hguard.
  - now rewrite (run_bind_inl _ _ self self (mode_conflict mode (atomic self))).
  - now rewrite (run_bind_inr _ _ self self tt).
Qed.

Lemma mode_differs_spec (self : t) (mode : Mode) :
  mode_differs self mode = true <->
  exists first rest,
    registers self = first :: rest /\ truthy (atomic self) = true
    /\ mode <> Register.mode first.
Proof.
  unfold mode_differs. split.
  - destruct (registers self) as [|first rest]; [discriminate|].
    destruct (truthy (atomic self)); [|discriminate].
    intros Hne%bool_decide_eq_true. now exists first, rest.
  - intros (first & rest & -> & -> & Hne). now apply bool_decide_eq_true.
Qed.

Lemma truthy_row_all (atomic : option string) :
  atomic = Some "row"%string \/ atomic = Some "all"%string ->
  truthy atomic = true.
Proof. now intros [-> | ->]. Qed.

(** The first register of a name, located in the sequence. *)
Lemma find_register_Some (registers : list Register.t) (name : string)
    (register : Register.t) :
  find_register registers name = Some register ->
  exists before after,
    registers = before ++ register :: after
    /\ Register.name register = name
    /\ Forall (fun other => Register.name other <> name) before.
Proof.
  induction registers as [|head rest IH]; simpl; [discriminate|].
  case_bool_decide as Hname.
  - intros [= ->]. now exists [], rest.
  - intros (before & after & -> & Hfound & Hbefore)%IH.
    exists (head :: before), after. repeat split; [done|].
    now constructor.
Qed.

Lemma find_register_None (registers : list Register.t) (name : string) :
  find_register registers name = None <->
  Forall (fun other => Register.name other <> name) registers.
Proof.
  induction registers as [|head rest IH]; simpl.
  - split; [constructor | done].
  - case_bool_decide as Hname.
    + split; [discriminate|]. now intros [Hhead _]%Forall_cons.
    + rewrite IH. split; [now constructor | now intros [_ ?]%Forall_cons].
Qed.

Lemma find_register_app (registers : list Register.t)
    (register : Register.t) (name : string) :
  find_register (registers ++ [register]) name =
    match find_register registers name with
    | Some found => Some found
    | None => if bool_decide (Register.name register = name)
              then Some register else None
    end.
Proof.
  induction registers as [|head rest IH]; simpl.
  - now destruct (bool_decide _).
  - now destruct (bool_decide (Register.name head = name)).
Qed.

(** In a constructed array every register's index is its position. *)
Lemma constructed_indexed (self : t) :
  constructed self -> indexed (registers self).
Proof.
  induction 1 as [name base_index length description atomic self Hinit
                 |name mode description self _ IH].
  - unfold __init__ in Hinit. destruct (negb _); [discriminate|].
    injection Hinit as <-. now intros i register.
  - unfold state_after. rewrite append_register_run.
    destruct (mode_differs self mode); simpl; [done|].
    intros i register [Hold | [Hlen Hnew]]%lookup_app_Some.
    + now apply IH.
    + destruct (i - List.length (registers self))%nat eqn:Hi; [|done].
      injection Hnew as <-. unfold len. simpl. lia.
Qed.

Lemma constructed_atomic (self : t) :
  constructed self -> atomic_allowed (atomic self) = true.
Proof.
  induction 1 as [name base_index length description atomic self Hinit
                 |name mode description self _ IH].
  - unfold __init__ in Hinit.
    destruct (atomic_allowed atomic) eqn:Hallowed; [|discriminate].
    now injection Hinit as <-.
  - unfold state_after. rewrite append_register_run.
    now destruct (mode_differs self mode).
Qed.

Lemma row_array_constructed (base_index : Z) :
  constructed (row_array base_index).
Proof.
  unfold row_array. do 2 apply constructed_append.
  now apply (constructed_init "array" base_index 3 "" (Some "row"%string)).
Qed.
End RegisterArrayProperties.

Section RegisterArrayClaims.
Import RegisterArray.

(** C1: for an array index with [0 <= array_index < length],
    [get_start_index] returns [base_index + array_index * len(registers)];
    in particular, in an array of length 3 with 2 registers, repetition 0
    starts at [base_index] and repetition 2 at [base_index + 4]. *)
Theorem get_start_index_in_range (self : t) (array_index : Z) :
  0 <= array_index < length self ->
  get_start_index self array_index
    = inr (base_index self + array_index * len self)
  /\ (length self = 3 -> len self = 2 ->
      get_start_index self 0 = inr (base_index self)
      /\ get_start_index self 2 = inr (base_index self + 4)).
Proof.
  intros Hrange. unfold get_start_index. split.
  - rewrite bool_decide_eq_false_2 by lia. reflexivity.
  - intros Hlength Hlen. rewrite Hlength, Hlen.
    rewrite !bool_decide_eq_false_2 by lia.
    split; f_equal; lia.
Qed.

Lemma get_start_index_in_range_scenario :
  0 <= 2 < length (row_array 10)
  /\ get_start_index (row_array 10) 2 = inr 14
  /\ get_start_index (row_array 10) 0 = inr 10.
Proof.
  assert (Hrange : 0 <= 2 < length (row_array 10)) by (vm_compute; split; congruence).
  split; [exact Hrange|].
  destruct (get_start_index_in_range (row_array 10) 2 Hrange) as [_ Hscenario].
  destruct (Hscenario eq_refl eq_refl) as [Hzero Htwo].
  split; [exact Htwo | exact Hzero].
Defined.

(** An empty array, and an array with no atomicity, take every mode. *)
Lemma append_register_not_atomic (self : t) (name : string) (mode : Mode)
    (description : string) :
  registers self = [] \/ atomic self = None ->
  outcome (append_register name mode description) self
    = inr (Register.__init__ name (len self) mode description).
Proof.
  intros Hfree. unfold outcome. rewrite append_register_run.
  assert (Hguard : mode_differs self mode = false).
  { unfold mode_differs. destruct Hfree as [-> | ->]; [done|].
    now destruct (registers self). }
  now rewrite Hguard.
Qed.

(** C2: in an array with atomicity "row" or "all" that holds a register
    already, [append_register] with a mode other than the first register's
    raises the mode-conflict error, and with the first register's mode it
    returns the new register; in an array with no atomicity, whether it
    holds registers or not, and in an array that holds none, it returns the
    new register whatever the mode. *)
Theorem append_register_mode_conflict (self : t) (name : string)
    (mode : Mode) (description : string) :
  (forall (first : Register.t) (rest : list Register.t),
     registers self = first :: rest ->
     (atomic self = Some "row"%string \/ atomic self = Some "all"%string ->
      mode <> Register.mode first ->
      exists e, outcome (append_register name mode description) self = inl e
                /\ is_ModeConflictError e = true)
     /\ (mode = Register.mode first ->
         outcome (append_register name mode description) self
           = inr (Register.__init__ name (len self) mode description)))
  /\ (atomic self = None ->
      outcome (append_register name mode description) self
        = inr (Register.__init__ name (len self) mode description))
  /\ (registers self = [] ->
      outcome (append_register name mode description) self
        = inr (Register.__init__ name (len self) mode description)).
Proof.
  split; [|split; intros Hfree; apply append_register_not_atomic; tauto].
  intros first rest Hregisters.
  unfold outcome. rewrite append_register_run. split.
  - intros Hatomic Hmode.
    assert (Hguard : mode_differs self mode = true).
    { apply mode_differs_spec. exists first, rest.
      auto using truthy_row_all. }
    rewrite Hguard. now exists (mode_conflict mode (atomic self)).
  - intros ->.
    assert (Hguard : mode_differs self (Register.mode first) = false).
    { unfold mode_differs. rewrite Hregisters.
      destruct (truthy (atomic self)); [|done].
      now apply bool_decide_eq_false_2; intros []. }
    now rewrite Hguard.
Qed.

Lemma append_register_mode_conflict_scenario :
  (exists e, outcome (append_register "third" w "") (row_array 0) = inl e
             /\ is_ModeConflictError e = true)
  /\ outcome (append_register "third" r "") (row_array 0)
       = inr (Register.__init__ "third" 2 r "")
  /\ outcome (append_register "first" w "") (empty_array 0 None)
       = inr (Register.__init__ "first" 0 w "")
  /\ outcome (append_register "second" w "")
       (state_after (append_register "first" r "") (empty_array 0 None))
       = inr (Register.__init__ "second" 1 w "")
  /\ outcome (append_register "first" w "") (empty_array 0 (Some "all"))
       = inr (Register.__init__ "first" 0 w "").
Proof.
  destruct (append_register_mode_conflict (row_array 0) "third" w "")
    as [Hheld _].
  destruct (Hheld (Register.__init__ "first" 0 r "")
              [Register.__init__ "second" 1 r ""] eq_refl)
    as [Hconflict _].
  destruct (append_register_mode_conflict (row_array 0) "third" r "")
    as [Hheld' _].
  destruct (Hheld' (Register.__init__ "first" 0 r "")
              [Register.__init__ "second" 1 r ""] eq_refl)
    as [_ Hsame].
  destruct (append_register_mode_conflict (empty_array 0 None) "first" w "")
    as (_ & Hnone & _).
  destruct (append_register_mode_conflict
              (state_after (append_register "first" r "")
                 (empty_array 0 None)) "second" w "")
    as (_ & Hnone' & _).
  destruct (append_register_mode_conflict
              (empty_array 0 (Some "all"%string)) "first" w "")
    as (_ & _ & Hempty).
  split; [apply Hconflict; [now left | discriminate]|].
  split; [now apply Hsame|].
  split; [now apply Hnone|].
  split; [now apply Hnone' | now apply Hempty].
Defined.

(** C3, as the code has it: [get_start_index] raises the range error exactly
    when [array_index >= length]; below [length], negative indices included,
    it returns [base_index + array_index * len(registers)]. *)
Theorem get_start_index_raises_iff (self : t) (array_index : Z) :
  ((exists e, get_start_index self array_index = inl e
              /\ is_RangeError e = true)
   <-> array_index >= length self)
  /\ (get_start_index self array_index
        = inr (base_index self + array_index * len self)
      <-> array_index < length self).
Proof.
  unfold get_start_index. case_bool_decide as Hge.
  - split; split; try done; try lia.
    intros _. now eexists.
  - split; split; try done; try lia.
    now intros (e & [=] & _).
Qed.

(** C3 as stated fails: index -1 of an array of length 3 is outside
    [0, length) and is not rejected. *)
Lemma get_start_index_negative_returns :
  ~ (0 <= -1 < length (row_array 10))
  /\ get_start_index (row_array 10) (-1) = inr 8.
Proof. split; [simpl; lia | reflexivity]. Qed.

(** C4: the property [index] is
    [base_index + length * len(registers) - 1], and in an array built by the
    constructor and [append_register] that is the highest index occupied:
    no register of a repetition that [get_start_index] accepts lies above
    it, and when the array has a repetition and a register, the last
    register of the last repetition lies on it. *)
Theorem index_highest_occupied (self : t) :
  index self
  = base_index self
    + length self * Z.of_nat (List.length (registers self)) - 1
  /\ (constructed self ->
      (forall (i start : Z) (a : nat) (register : Register.t),
         get_start_index self i = inr start ->
         registers self !! a = Some register ->
         start + Register.index register <= index self)
      /\ (0 < length self -> registers self <> [] ->
          exists (start : Z) (register : Register.t),
            get_start_index self (length self - 1) = inr start
            /\ last (registers self) = Some register
            /\ start + Register.index register = index self)).
Proof.
  split; [reflexivity|].
  intros Hself%constructed_indexed. split.
  - intros i start a register Hstart Ha.
    rewrite (Hself a register Ha). apply lookup_lt_Some in Ha.
    revert Hstart. unfold get_start_index, index, len.
    case_bool_decide as Hi; [discriminate|]. intros [= <-].
    set (n := Z.of_nat (List.length (registers self))) in *.
    assert (0 <= Z.of_nat a < n) by (subst n; lia).
    nia.
  - intros Hlength Hheld.
    destruct (last (registers self)) as [register|] eqn:Hlast;
      [|now apply last_None in Hlast].
    exists (base_index self + (length self - 1) * len self), register.
    split; [|split; [reflexivity|]].
    + unfold get_start_index. now rewrite bool_decide_eq_false_2 by lia.
    + rewrite last_lookup in Hlast. rewrite (Hself _ register Hlast).
      apply lookup_lt_Some in Hlast. unfold index, len.
      set (n := List.length (registers self)) in *.
      rewrite Nat2Z.inj_pred by lia. lia.
Qed.

Lemma index_highest_occupied_row_array :
  index (row_array 10) = 15
  /\ exists (start : Z) (register : Register.t),
       get_start_index (row_array 10) 2 = inr start
       /\ last (registers (row_array 10)) = Some register
       /\ start + Register.index register = 15.
Proof.
  destruct (index_highest_occupied (row_array 10)) as [Hindex Hhighest].
  destruct (Hhighest (row_array_constructed 10)) as [_ Hattained].
  split; [exact Hindex|].
  apply Hattained; [reflexivity | discriminate].
Defined.

(** C5, as the code has it: [append_register] never compares names.  With
    the name of a register the array already holds, and a mode the guard
    lets pass, it returns the new register and appends it, so that the array
    holds two registers of that name, and [get_register] still returns the
    earlier one. *)
Theorem append_register_same_name (self : t) (name : string) (mode : Mode)
    (description : string) (earlier : Register.t) :
  get_register self name = inr earlier ->
  mode_differs self mode = false ->
  let register := Register.__init__ name (len self) mode description in
  let self' := state_after (append_register name mode description) self in
  outcome (append_register name mode description) self = inr register
  /\ registers self' = registers self ++ [register]
  /\ earlier ∈ registers self'
  /\ Register.name earlier = Register.name register
  /\ get_register self' name = inr earlier.
Proof.
  intros Hearlier Hguard register self'.
  unfold get_register in Hearlier.
  destruct (find_register (registers self) name) as [found|] eqn:Hfind;
    [|discriminate].
  injection Hearlier as ->.
  subst self'. unfold outcome, state_after.
  rewrite append_register_run, Hguard. simpl.
  destruct (find_register_Some _ _ _ Hfind) as (before & after & Hsplit & Hname & _).
  repeat split.
  - rewrite Hsplit. apply list_elem_of_In.
    rewrite !in_app_iff. left. right. now left.
  - exact Hname.
  - unfold get_register. simpl. rewrite find_register_app, Hfind. reflexivity.
Qed.

Lemma append_register_same_name_scenario :
  outcome (append_register "first" r "") (row_array 0)
    = inr (Register.__init__ "first" 2 r "")
  /\ get_register (state_after (append_register "first" r "") (row_array 0))
       "first"
     = inr (Register.__init__ "first" 0 r "").
Proof.
  destruct (append_register_same_name (row_array 0) "first" r ""
              (Register.__init__ "first" 0 r "") eq_refl eq_refl)
    as (Hreturns & _ & _ & _ & Hget).
  split; [exact Hreturns | exact Hget].
Defined.

(** C5 as stated fails: appending the name "first" a second time returns a
    register, and the array then holds that name at indices 0 and 2. *)
Lemma append_register_duplicate_name_accepted :
  get_register (row_array 0) "first" = inr (Register.__init__ "first" 0 r "")
  /\ outcome (append_register "first" r "") (row_array 0)
       = inr (Register.__init__ "first" 2 r "")
  /\ Register.name <$>
       registers (state_after (append_register "first" r "") (row_array 0))
     = ["first"; "second"; "first"]%string.
Proof. repeat split. Qed.

(** C8: in a constructed array, [get_register(name)] after
    [append_register(name, mode, description)] returns a register of that
    name whose index is the number of registers that stand before it, and
    that is the appended register, with as index the number of registers the
    array held, when no earlier register has the name.  For a name that no
    register of the array has, [get_register] raises the lookup error. *)
Theorem get_register_after_append (self : t) (name : string) (mode : Mode)
    (description : string) (register : Register.t) :
  constructed self ->
  outcome (append_register name mode description) self = inr register ->
  let self' := state_after (append_register name mode description) self in
  (exists found before after,
     get_register self' name = inr found
     /\ Register.name found = name
     /\ registers self' = before ++ found :: after
     /\ Register.index found = Z.of_nat (List.length before)
     /\ (Forall (fun other => Register.name other <> name) (registers self) ->
         found = register /\ Register.index found = len self))
  /\ (forall (array : t) (absent : string),
        Forall (fun other => Register.name other <> absent) (registers array) ->
        exists e, get_register array absent = inl e
                  /\ is_LookupError e = true).
Proof.
  intros Hconstructed Hreturns self'.
  assert (Hindexed : indexed (registers self')).
  { apply constructed_indexed. now apply constructed_append. }
  subst self'. revert Hreturns Hindexed. unfold outcome, state_after.
  rewrite append_register_run.
  destruct (mode_differs self mode); simpl; [discriminate|].
  intros [= <-] Hindexed.
  set (register := Register.__init__ name (len self) mode description) in *.
  split.
  - unfold get_register. simpl. rewrite find_register_app.
    destruct (find_register (registers self) name) as [found|] eqn:Hfind.
    + destruct (find_register_Some _ _ _ Hfind)
        as (before & after & Hsplit & Hname & Hbefore).
      exists found, before, (after ++ [register]).
      split; [reflexivity|]. split; [exact Hname|].
      split; [now rewrite Hsplit, <- app_assoc|].
      split.
      * apply Hindexed. rewrite Hsplit, <- app_assoc.
        now apply list_lookup_middle.
      * intros Hfresh%find_register_None. congruence.
    + rewrite bool_decide_eq_true_2 by reflexivity.
      exists register, (registers self), [].
      split; [reflexivity|]. split; [reflexivity|].
      split; [reflexivity|]. split; [reflexivity|].
      intros _. split; reflexivity.
  - intros array absent Habsent%find_register_None.
    unfold get_register. rewrite Habsent. now eexists.
Qed.

Lemma get_register_after_append_scenario :
  get_register (state_after (append_register "third" r "") (row_array 0))
    "third"
  = inr (Register.__init__ "third" 2 r "").
Proof.
  destruct (get_register_after_append (row_array 0) "third" r ""
              (Register.__init__ "third" 2 r "")
              (row_array_constructed 0) eq_refl)
    as [(found & before & after & Hget & _ & _ & _ & Hfresh) _].
  destruct Hfresh as [-> _].
  - repeat constructor; discriminate.
  - exact Hget.
Defined.

(** C9: a call of [append_register] that raises leaves the array as it was:
    name, base index, length, atomicity and registers; a call that returns
    changes nothing but the registers, to which it appends the new register
    at the end. *)
Theorem append_register_all_or_nothing (self : t) (name : string)
    (mode : Mode) (description : string) :
  let self' := state_after (append_register name mode description) self in
  match outcome (append_register name mode description) self with
  | inl e =>
      e = mode_conflict mode (atomic self) /\ self' = self
  | inr register =>
      RegisterArray.name self' = RegisterArray.name self
      /\ base_index self' = base_index self
      /\ length self' = length self
      /\ RegisterArray.description self' = RegisterArray.description self
      /\ atomic self' = atomic self
      /\ registers self' = registers self ++ [register]
  end.
Proof.
  unfold outcome, state_after. rewrite append_register_run.
  now destruct (mode_differs self mode).
Qed.
End RegisterArrayClaims.

(** ** Enumeration classes *)

Section EnumProperties.
Import Enum SequentialEnum.

Lemma canonical_member_None (map : list (string * member)) (value : Z) :
  Forall (fun entry => _value_ entry.2 <> value) map ->
  canonical_member map value = None.
Proof.
  induction 1 as [|[key m] rest Hhead _ IH]; simpl; [done|].
  now rewrite bool_decide_eq_false_2.
Qed.

Lemma lookup_member_fresh (before map : list (string * member))
    (name : string) :
  name ∉ before.*1 ->
  lookup_member (before ++ map) name = lookup_member map name.
Proof.
  induction before as [|[key m] before IH]; simpl; [done|].
  intros [Hkey Hrest]%not_elem_of_cons.
  rewrite bool_decide_eq_false_2 by congruence. now apply IH.
Qed.

Lemma lookup_member_lookup (map : list (string * member)) (i : nat)
    (key : string) (m : member) :
  NoDup map.*1 -> map !! i = Some (key, m) -> lookup_member map key = Some m.
Proof.
  intros Hnodup (before & after & -> & _)%list_elem_of_split_length.
  rewrite lookup_member_fresh; [simpl; now rewrite bool_decide_eq_true_2|].
  rewrite fmap_app in Hnodup. apply NoDup_app in Hnodup as (_ & Hdisjoint & _).
  intros Hin. apply (Hdisjoint key Hin). simpl. left.
Qed.

(** With every name bound once, looking the names up in order lists the
    members in order. *)
Lemma lookup_members_in_order (before map : list (string * member)) :
  NoDup (before ++ map).*1 ->
  omap (lookup_member (before ++ map)) map.*1 = map.*2.
Proof.
  revert before. induction map as [|[key m] map IH]; intros before; [done|].
  intros Hnodup. simpl.
  assert (Hfresh : key ∉ before.*1).
  { rewrite fmap_app in Hnodup. apply NoDup_app in Hnodup as (_ & Hdisjoint & _).
    intros Hin. apply (Hdisjoint key Hin). simpl. left. }
  rewrite lookup_member_fresh by exact Hfresh. simpl.
  rewrite bool_decide_eq_true_2 by reflexivity. f_equal.
  specialize (IH (before ++ [(key, m)])).
  rewrite <- app_assoc in IH. now apply IH.
Qed.

Lemma in_sequence_fresh_value (cls : class) :
  in_sequence cls ->
  canonical_member (_member_map_ cls)
    (Z.of_nat (length (_member_map_ cls))) = None.
Proof.
  intros [_ Hposition]. apply canonical_member_None, Forall_lookup.
  intros i [key m] Hi. simpl.
  destruct (Hposition i key m Hi) as [_ ->].
  apply lookup_lt_Some in Hi. lia.
Qed.

Lemma add_member_in_sequence (cls cls' : class) (key : string)
    (args : list Z) :
  in_sequence cls ->
  add_member SequentialEnum.__new__ cls (key, args) = inr cls' ->
  in_sequence cls'
  /\ exists m, _member_map_ cls' = _member_map_ cls ++ [(key, m)].
Proof.
  intros Hcls. unfold add_member, SequentialEnum.__new__, __members__.
  destruct (int__new__ args) as [e|obj]; [discriminate|]. simpl.
  rewrite in_sequence_fresh_value by exact Hcls.
  intros [= <-]. simpl. destruct Hcls as [Hnames Hposition].
  split; [|now eexists].
  split; simpl.
  - now rewrite fmap_app, Hnames.
  - intros i key' m [Hold | [Hlen Hnew]]%lookup_app_Some; [now eapply Hposition|].
    destruct (i - length (_member_map_ cls))%nat eqn:Hi; [|done].
    simpl in Hnew. injection Hnew as Hkey Hm. subst key' m. simpl.
    split; [done | lia].
Qed.

Lemma add_members_in_sequence (body : list (string * list Z))
    (cls cls' : class) :
  in_sequence cls ->
  add_members SequentialEnum.__new__ cls body = inr cls' ->
  in_sequence cls'
  /\ (_member_map_ cls').*1 = (_member_map_ cls).*1 ++ body.*1.
Proof.
  revert cls. induction body as [|[key args] body IH]; intros cls Hcls;
    cbn [add_members].
  - intros [= <-]. simpl. now rewrite app_nil_r.
  - destruct (add_member SequentialEnum.__new__ cls (key, args))
      as [e|next] eqn:Hnext; [discriminate|].
    destruct (add_member_in_sequence _ _ _ _ Hcls Hnext) as [Hseq [m Hmap]].
    intros [Hfinal Hkeys]%(IH _ Hseq). split; [exact Hfinal|].
    now rewrite Hkeys, Hmap, fmap_app, <- app_assoc.
Qed.

(** The namespace takes a key as a member name exactly when the key is a
    member key that it does not hold yet. *)
Lemma setitem_inr (cls_name key : string) (seen names : list string) :
  __setitem__ cls_name seen key = inr names <->
  is_member_key cls_name key = true /\ (key ∉ seen) /\ names = seen ++ [key].
Proof.
  unfold __setitem__, is_member_key.
  destruct (_is_private cls_name key); [intuition discriminate|].
  destruct (_is_sunder key);
    [destruct (bool_decide _); intuition discriminate|].
  destruct (_is_dunder key); [intuition discriminate|].
  case_bool_decide as Hseen; simpl.
  - intuition discriminate.
  - split; [intros [= <-]; auto | intros (_ & _ & ->); reflexivity].
Qed.

Lemma class_body_inr (cls_name : string) (keys seen names : list string) :
  class_body cls_name seen keys = inr names <->
  Forall (fun key => is_member_key cls_name key = true) keys
  /\ NoDup keys
  /\ (forall key, key ∈ keys -> key ∉ seen)
  /\ names = seen ++ keys.
Proof.
  revert seen. induction keys as [|key keys IH]; intros seen; simpl.
  - rewrite app_nil_r. split.
    + intros [= <-]. split; [constructor|]. split; [constructor|].
      split; [|reflexivity].
      intros key Hkey. now apply elem_of_nil in Hkey.
    + now intros (_ & _ & _ & ->).
  - destruct (__setitem__ cls_name seen key) as [e|seen'] eqn:Hkey.
    + split; [discriminate|].
      intros (Hkeys & _ & Hfresh & _). apply Forall_cons in Hkeys as [Hhead _].
      assert (Hset : __setitem__ cls_name seen key = inr (seen ++ [key])).
      { apply setitem_inr. split; [exact Hhead|]. split; [|reflexivity].
        apply Hfresh. left. }
      congruence.
    + apply setitem_inr in Hkey as (Hhead & Hfresh & ->).
      rewrite IH, <- app_assoc. simpl. split.
      * intros (Hkeys & Hnodup & Hdisjoint & ->).
        split; [now constructor|]. split; [|split; [|reflexivity]].
        -- constructor; [|exact Hnodup].
           intros Hin. apply (Hdisjoint key Hin), elem_of_app. right. left.
        -- intros key' [-> | Hin]%elem_of_cons; [exact Hfresh|].
           intros Hseen. apply (Hdisjoint key' Hin), elem_of_app. now left.
      * intros (Hkeys & Hnodup & Hdisjoint & ->).
        apply Forall_cons in Hkeys as [_ Hkeys].
        apply NoDup_cons in Hnodup as [Hhead' Hnodup].
        split; [exact Hkeys|]. split; [exact Hnodup|]. split; [|reflexivity].
        intros key' Hin [Hseen | Hsame%list_elem_of_singleton]%elem_of_app.
        -- apply (Hdisjoint key'); [now right | exact Hseen].
        -- now subst key'.
Qed.

(** A class statement returns a class exactly when every name of its body
    is a member key other than [mro] and the empty name and is bound once,
    and the creation of the members returns, with that class. *)
Lemma class_statement_inr (new : new_method) (name : string)
    (sequential : bool) (body : list (string * list Z)) (cls : class) :
  class_statement new name sequential body = inr cls <->
  Forall (fun key => is_member_key name key = true
                     /\ key <> "mro"%string /\ key <> ""%string) body.*1
  /\ NoDup body.*1
  /\ add_members new
       {| __name__ := name; sequential := sequential;
          _member_names_ := []; _member_map_ := [] |} body = inr cls.
Proof.
  unfold class_statement.
  destruct (class_body name [] body.*1) as [e|names] eqn:Hbody.
  - split; [discriminate|]. intros (Hkeys & Hnodup & _).
    assert (Hreturns : class_body name [] body.*1 = inr ([] ++ body.*1)).
    { apply class_body_inr. split; [|split; [exact Hnodup|split]].
      - eapply Forall_impl; [exact Hkeys|]. now intros key [Hkey _].
      - intros key _ Hin. now apply elem_of_nil in Hin.
      - reflexivity. }
    congruence.
  - apply class_body_inr in Hbody as (Hkeys & Hnodup & _ & ->). simpl.
    case_bool_decide as Hinvalid.
    + split; [discriminate|]. intros (Hvalid & _). exfalso.
      rewrite Forall_forall in Hvalid.
      destruct Hinvalid as [Hin | Hin]; apply Hvalid in Hin; tauto.
    + destruct (add_members new _ body) as [e|cls'].
      * split; [discriminate | now intros (_ & _ & [=])].
      * split.
        -- intros [= <-]. split; [|split; [exact Hnodup | reflexivity]].
           rewrite Forall_forall in Hkeys. apply Forall_forall.
           intros key Hin. split; [now apply Hkeys|].
           split; intros ->; tauto.
        -- now intros (_ & _ & [= <-]).
Qed.




(** C7: in a class declared with [SequentialEnum], the member defined at
    position [i] of the class body, counted from 0, has the value [i]: the
    class has as many members as the body has names, the values are
    0, 1, ..., n-1, and iteration yields the members in that order. *)
Theorem SequentialEnum_value_is_position (name : string)
    (body : list (string * list Z)) (cls : class) :
  SequentialEnum.subclass name body = inr cls ->
  member_count cls = Z.of_nat (length body)
  /\ _value_ <$> members cls = Z.of_nat <$> seq 0 (length body)
  /\ forall (i : nat) (key : string) (args : list Z),
       body !! i = Some (key, args) ->
       exists m, members cls !! i = Some m
                 /\ attr cls key = Some m
                 /\ _name_ m = key
                 /\ _value_ m = Z.of_nat i.
Proof.
  intros (_ & Hnodup & Hbody)%class_statement_inr.
  apply add_members_in_sequence in Hbody as [[Hnames Hposition] Hkeys];
    [|split; [done | intros i key m Hi; now destruct i]].
  simpl in Hkeys.
  assert (Hmembers : members cls = (_member_map_ cls).*2).
  { unfold members. rewrite Hnames.
    apply (lookup_members_in_order []). simpl. now rewrite Hkeys. }
  assert (Hlength : length (_member_map_ cls) = length body).
  { now rewrite <- (length_fmap fst), Hkeys, length_fmap. }
  assert (Hith : forall (i : nat) (m : member),
             members cls !! i = Some m -> _value_ m = Z.of_nat i).
  { intros i m. rewrite Hmembers, list_lookup_fmap.
    destruct (_member_map_ cls !! i) as [[key m']|] eqn:Hi; [|done].
    intros [= <-]. now destruct (Hposition i key m' Hi). }
  split; [|split].
  - unfold member_count. now rewrite Hnames, length_fmap, Hlength.
  - apply list_eq. intros i. rewrite !list_lookup_fmap.
    destruct (members cls !! i) as [m|] eqn:Hi; simpl.
    + rewrite (Hith i m Hi).
      assert (i < length body)%nat.
      { apply lookup_lt_Some in Hi.
        now rewrite Hmembers, length_fmap, Hlength in Hi. }
      now rewrite lookup_seq_lt.
    + apply lookup_ge_None in Hi.
      rewrite Hmembers, length_fmap, Hlength in Hi.
      now rewrite lookup_seq_ge.
  - intros i key args Hi.
    assert (Hkey : (_member_map_ cls).*1 !! i = Some key).
    { now rewrite Hkeys, list_lookup_fmap, Hi. }
    rewrite list_lookup_fmap in Hkey.
    destruct (_member_map_ cls !! i) as [[key' m]|] eqn:Hentry; [|done].
    injection Hkey as ->.
    destruct (Hposition i key m Hentry) as [Hname Hvalue].
    exists m. repeat split; try done.
    + now rewrite Hmembers, list_lookup_fmap, Hentry.
    + unfold attr. apply (lookup_member_lookup _ i); [|exact Hentry].
      now rewrite Hkeys.
Qed.

Lemma SequentialEnum_value_is_position_Example :
  _value_ <$> members Example = [0; 1; 2; 3].
Proof.
  destruct (SequentialEnum_value_is_position "Example"
              [("A", []); ("B", []); ("C", []); ("D", [])]%string
              Example eq_refl)
    as (_ & Hvalues & _).
  exact Hvalues.
Defined.
End EnumProperties.

(** The two classes of the unit tests are what their class statements
    return. *)
Lemma ExampleEnum_declared :
  IntEnum.subclass "ExampleEnum"
    [("A", [2]); ("B", [3]); ("C", [6]); ("D", [12])]%string
  = inr ExampleEnum.
Proof. reflexivity. Qed.

Lemma Example_declared :
  SequentialEnum.subclass "Example"
    [("A", []); ("B", []); ("C", []); ("D", [])]%string
  = inr Example.
Proof. reflexivity. Qed.

(** ** The enumeration field type *)

Section EnumTypeProperties.
Import EnumType.

Lemma ordinal_lookup (ms : list Enum.member) (m : Enum.member) (i : nat)
    (at_ : Z) :
  NoDup ms -> ms !! i = Some m -> ordinal ms m at_ = Some (at_ + Z.of_nat i).
Proof.
  revert i at_. induction ms as [|head rest IH]; intros i at_ Hnodup; [done|].
  apply NoDup_cons in Hnodup as [Hhead Hrest].
  destruct i as [|i]; simpl.
  - intros [= ->]. rewrite bool_decide_eq_true_2 by reflexivity.
    f_equal. lia.
  - intros Hi. rewrite bool_decide_eq_false_2.
    + rewrite (IH i (at_ + 1)) by done. f_equal. lia.
    + intros ->. apply Hhead. now apply list_elem_of_lookup_2 in Hi.
Qed.

(** Without the sequential declaration, a member encodes to its position
    in the iteration order of the class. *)
Lemma convert_to_unsigned_binary_position (self : t) (bit_width : Z)
    (m : Enum.member) (i : nat) :
  is_sequential self = false ->
  NoDup (Enum.members (enum self)) ->
  Enum.members (enum self) !! i = Some m ->
  convert_to_unsigned_binary self bit_width m = inr (Z.of_nat i).
Proof.
  intros Hplain Hnodup Hi. unfold convert_to_unsigned_binary.
  now rewrite (ordinal_lookup _ _ i 0 Hnodup Hi), Hplain.
Qed.

(** A code at or beyond the number of members decodes to no member. *)
Lemma convert_from_unsigned_binary_beyond (self : t) (bit_width code : Z) :
  is_sequential self = false ->
  Z.of_nat (length (Enum.members (enum self))) <= code ->
  convert_from_unsigned_binary self bit_width code
    = inl (code_without_member (Enum.__name__ (enum self)) code).
Proof.
  intros Hplain Hcode. unfold convert_from_unsigned_binary.
  rewrite Hplain, bool_decide_eq_true_2 by lia.
  rewrite (proj2 (lookup_ge_None _ _)) by lia. reflexivity.
Qed.

(** C6: for an enumeration that is not sequential and has four members of
    the values 2, 3, 6 and 12, in this order: the width is 2; a member
    encodes to its position in insertion order, the member of value 12 to 3;
    and the code 4, which no member has, does not decode. *)
Theorem EnumType_four_members (cls : Enum.class) :
  Enum.sequential cls = false ->
  Enum.member_count cls = 4 ->
  Enum._value_ <$> Enum.members cls = [2; 3; 6; 12] ->
  let enum_type := EnumType.mk cls in
  let width := expected_bit_width enum_type in
  width = 2
  /\ (forall (i : nat) (m : Enum.member),
        Enum.members cls !! i = Some m ->
        convert_to_unsigned_binary enum_type width m = inr (Z.of_nat i))
  /\ (forall m : Enum.member,
        m ∈ Enum.members cls -> Enum._value_ m = 12 ->
        convert_to_unsigned_binary enum_type width m = inr 3)
  /\ exists e, convert_from_unsigned_binary enum_type width 4 = inl e
               /\ is_RangeError e = true.
Proof.
  intros Hplain Hcount Hvalues enum_type width.
  assert (Hnodup : NoDup (Enum.members cls)).
  { apply (NoDup_fmap_1 Enum._value_). rewrite Hvalues.
    compute_done. }
  assert (Hencode : forall (i : nat) (m : Enum.member),
             Enum.members cls !! i = Some m ->
             convert_to_unsigned_binary enum_type width m = inr (Z.of_nat i)).
  { intros i m Hi. now apply convert_to_unsigned_binary_position. }
  split; [|split; [exact Hencode|split]].
  - subst width enum_type. unfold expected_bit_width, enum_bit_width. simpl.
    now rewrite Hcount.
  - intros m [i Hi]%list_elem_of_lookup_1 Hvalue.
    assert (Hith : [2; 3; 6; 12] !! i = Some 12).
    { now rewrite <- Hvalues, list_lookup_fmap, Hi, <- Hvalue. }
    destruct i as [|[|[|[|i]]]]; try discriminate.
    now apply (Hencode 3%nat).
  - exists (code_without_member (Enum.__name__ cls) 4).
    split; [|reflexivity].
    apply (convert_from_unsigned_binary_beyond enum_type); [exact Hplain|].
    simpl. rewrite <- (length_fmap Enum._value_), Hvalues. simpl. lia.
Qed.

Lemma EnumType_four_members_ExampleEnum :
  expected_bit_width (EnumType.mk ExampleEnum) = 2
  /\ (convert_to_unsigned_binary (EnumType.mk ExampleEnum) 2 <$>
        attr ExampleEnum "D") = Some (inr 3)
  /\ exists e,
       convert_from_unsigned_binary (EnumType.mk ExampleEnum) 2 4 = inl e
       /\ is_RangeError e = true.
Proof.
  destruct (EnumType_four_members ExampleEnum eq_refl eq_refl eq_refl)
    as (Hwidth & Hposition & _ & Hfour).
  split; [exact Hwidth|]. split; [|exact Hfour].
  exact (f_equal Some
           (Hposition 3%nat (Enum.mk_member "ExampleEnum" "D" 12 12) eq_refl)).
Defined.
End EnumTypeProperties.

(** ** Binary numerals *)

Section BinaryProperties.
Import Binary.

Lemma length_append (s1 s2 : string) :
  String.length (s1 +:+ s2) = (String.length s1 + String.length s2)%nat.
Proof. induction s1 as [|c s1 IH]; simpl; [done | now rewrite IH]. Qed.

Lemma length_zeros (k : nat) : String.length (zeros k) = k.
Proof. induction k as [|k IH]; simpl; [done | now rewrite IH]. Qed.

Lemma length_digits_pos (p : positive) (tail : string) :
  String.length (digits_pos p tail)
    = (Pos.size_nat p + String.length tail)%nat.
Proof.
  revert tail. induction p as [q IH|q IH|]; intros tail; simpl;
    [rewrite IH|rewrite IH|]; simpl; lia.
Qed.

(** A number is below the power of two of its number of digits. *)
Lemma size_nat_above (p : positive) : Z.pos p < 2 ^ Z.of_nat (Pos.size_nat p).
Proof.
  induction p as [q IH|q IH|]; simpl Pos.size_nat;
    rewrite ?Nat2Z.inj_succ, ?Z.pow_succ_r by lia; lia.
Qed.

Lemma digits_pos_leading_one (p : positive) (tail : string) :
  exists rest, digits_pos p tail = String "1"%char rest.
Proof.
  revert tail. induction p as [q IH|q IH|]; intros tail; simpl; eauto.
Qed.

Lemma parse_digits_pos (p : positive) (tail : string) :
  parse_digits (digits_pos p tail) 0 = parse_digits tail (Z.pos p).
Proof.
  revert tail. induction p as [q IH|q IH|]; intros tail; simpl; [| |done].
  - now rewrite IH.
  - now rewrite IH.
Qed.

Lemma parse_digits_zeros (k : nat) (text : string) :
  parse_digits (zeros k +:+ text) 0 = parse_digits text 0.
Proof. induction k as [|k IH]; simpl; [done | exact IH]. Qed.

(** The digits of a number, zero-filled, read back as its absolute value. *)
Lemma parse_digits_filled (k : nat) (n : Z) :
  parse_digits (zeros k +:+ digits n) 0 = Some (Z.abs n).
Proof.
  rewrite parse_digits_zeros.
  destruct n as [|p|p]; simpl; [done| |]; now rewrite parse_digits_pos.
Qed.

(** Zero-filled digits are not empty and do not start with a sign. *)
Lemma filled_leading_digit (k : nat) (n : Z) :
  exists c rest,
    zeros k +:+ digits n = String c rest /\ c <> "-"%char.
Proof.
  destruct k as [|k]; simpl; [|now eexists _, _].
  destruct n as [|p|p]; simpl; [now eexists _, _| |];
    destruct (digits_pos_leading_one p "") as [rest ->]; now eexists _, _.
Qed.

(** [int(f"{n:0{width}b}", 2) == n] *)
Lemma int_format (width n : Z) : Binary.int (format width n) = Some n.
Proof.
  unfold format. case_bool_decide as Hsign.
  - set (fill := (_ - _ - _)%nat).
    destruct (filled_leading_digit fill n) as (c & rest & Hfilled & _).
    change (Binary.int (String "-"%char (zeros fill +:+ digits n)) = Some n).
    unfold Binary.int. rewrite bool_decide_eq_true_2 by reflexivity.
    rewrite Hfilled, <- Hfilled, parse_digits_filled. simpl. f_equal. lia.
  - set (fill := (_ - _ - _)%nat). change ("" +:+ ?s)%string with s.
    destruct (filled_leading_digit fill n) as (c & rest & Hfilled & Hc).
    unfold Binary.int. rewrite Hfilled, bool_decide_eq_false_2 by exact Hc.
    rewrite <- Hfilled, parse_digits_filled. f_equal. lia.
Qed.

(** The formatted text has at least [width] characters. *)
Lemma length_format_ge (width n : Z) :
  width <= Z.of_nat (String.length (format width n)).
Proof. unfold format. rewrite !length_append, length_zeros. lia. Qed.

(** A number of [2 ^ width] or more takes more than [width] characters. *)
Lemma length_format_gt (width n : Z) :
  0 <= width -> 2 ^ width <= n ->
  width < Z.of_nat (String.length (format width n)).
Proof.
  intros Hwidth Hn. unfold format. rewrite !length_append.
  assert (0 < 2 ^ width) by (apply Z.pow_pos_nonneg; lia).
  destruct n as [|p|p]; try lia. simpl digits.
  rewrite length_digits_pos. pose proof (size_nat_above p) as Hsize.
  destruct (Z_lt_le_dec width (Z.of_nat (Pos.size_nat p))) as [Hlt|Hle]; [lia|].
  assert (2 ^ Z.of_nat (Pos.size_nat p) <= 2 ^ width)
    by (apply Z.pow_le_mono_r; lia).
  lia.
Qed.
End BinaryProperties.

(** ** Classes declared with IntEnum *)

Section IntEnumProperties.
Import Enum.

(** In a class declared with [IntEnum] itself, the integer a member is and
    its value are the same number. *)
Lemma add_members_IntEnum (body : list (string * list Z)) (cls cls' : class) :
  Forall (fun entry => int_ entry.2 = _value_ entry.2) (_member_map_ cls) ->
  add_members IntEnum__new__ cls body = inr cls' ->
  Forall (fun entry => int_ entry.2 = _value_ entry.2) (_member_map_ cls').
Proof.
  revert cls. induction body as [|[key args] body IH]; intros cls Hcls;
    cbn [add_members]; [now intros [= <-]|].
  destruct (add_member IntEnum__new__ cls (key, args)) as [e|next] eqn:Hnext;
    [discriminate|].
  apply IH. revert Hnext. unfold add_member, IntEnum__new__.
  destruct (int__new__ args) as [e|obj]; [discriminate|]. simpl.
  destruct (canonical_member (_member_map_ cls) obj) as [canonical|] eqn:Hfind;
    intros [= <-]; simpl; apply Forall_app; (split; [exact Hcls|]);
    repeat constructor.
  clear -Hcls Hfind. induction Hcls as [|[key' m] rest Hhead _ IH]; simpl in *;
    [discriminate|].
  case_bool_decide; [now injection Hfind as <-|now apply IH].
Qed.

Lemma canonical_member_value (map : list (string * member)) (value : Z)
    (m : member) :
  canonical_member map value = Some m -> _value_ m = value.
Proof.
  induction map as [|[key m'] rest IH]; simpl; [discriminate|].
  case_bool_decide; [now intros [= <-] | exact IH].
Qed.

(** Each round binds the name to a member whose value is the integer of the
    arguments: a new member, or the member that already has this value. *)
Lemma add_member_IntEnum_entry (cls cls' : class) (key : string)
    (args : list Z) :
  add_member IntEnum__new__ cls (key, args) = inr cls' ->
  exists m, _member_map_ cls' = _member_map_ cls ++ [(key, m)]
            /\ int__new__ args = inr (_value_ m).
Proof.
  unfold add_member, IntEnum__new__.
  destruct (int__new__ args) as [e|obj]; [discriminate|]. simpl.
  destruct (canonical_member (_member_map_ cls) obj) as [canonical|] eqn:Hfind;
    intros [= <-]; simpl; eexists; (split; [reflexivity|]); simpl; [|done].
  now rewrite (canonical_member_value _ _ _ Hfind).
Qed.

Lemma add_members_IntEnum_entries (body : list (string * list Z))
    (cls cls' : class) :
  add_members IntEnum__new__ cls body = inr cls' ->
  exists entries,
    _member_map_ cls' = _member_map_ cls ++ entries
    /\ entries.*1 = body.*1
    /\ forall (i : nat) (key : string) (args : list Z),
         body !! i = Some (key, args) ->
         exists m, entries !! i = Some (key, m)
                   /\ int__new__ args = inr (_value_ m).
Proof.
  revert cls. induction body as [|[key args] body IH]; intros cls;
    cbn [add_members].
  - intros [= <-]. exists []. now rewrite app_nil_r.
  - destruct (add_member IntEnum__new__ cls (key, args)) as [e|next] eqn:Hnext;
      [discriminate|].
    destruct (add_member_IntEnum_entry _ _ _ _ Hnext) as (m & Hmap & Hvalue).
    intros (entries & Hentries & Hkeys & Hith)%IH.
    exists ((key, m) :: entries). split; [|split].
    + now rewrite Hentries, Hmap, <- app_assoc.
    + rewrite !fmap_cons. now rewrite Hkeys.
    + intros [|i] key' args'; simpl; [|now apply Hith].
      intros [= <- <-]. now exists m.
Qed.

Lemma IntEnum_member_is_value (name key : string)
    (body : list (string * list Z)) (cls : class) (m : member) :
  IntEnum.subclass name body = inr cls ->
  attr cls key = Some m -> int_ m = _value_ m.
Proof.
  unfold attr. intros (_ & _ & Hall)%class_statement_inr.
  apply add_members_IntEnum in Hall; [|constructor].
  induction Hall as [|[key' m'] rest Hhead _ IH]; simpl; [discriminate|].
  case_bool_decide; [now intros [= <-] | exact IH].
Qed.

(** In a class declared with [IntEnum], the name defined as the integer
    [v] is bound to a member that is the integer [v] and has the value
    [v]. *)
Lemma IntEnum_declared_value (name key : string)
    (body : list (string * list Z)) (cls : class) (i : nat) (v : Z) :
  IntEnum.subclass name body = inr cls ->
  body !! i = Some (key, [v]) ->
  exists m, attr cls key = Some m /\ int_ m = v /\ _value_ m = v.
Proof.
  intros Hcls Hi.
  assert (Hsame : forall m, attr cls key = Some m -> int_ m = _value_ m).
  { intros m. now apply (IntEnum_member_is_value name key body). }
  apply class_statement_inr in Hcls as (_ & Hnodup & Hcls).
  apply add_members_IntEnum_entries in Hcls
    as (entries & Hmap & Hkeys & Hith).
  simpl in Hmap. destruct (Hith i key [v] Hi) as (m & Hentry & [= Hvalue]).
  assert (Hattr : attr cls key = Some m).
  { unfold attr. rewrite Hmap. apply (lookup_member_lookup _ i); [|exact Hentry].
    now rewrite Hkeys. }
  exists m. rewrite (Hsame m Hattr). auto.
Qed.

End IntEnumProperties.

(** ** EnumField *)

Section EnumFieldClaims.
Import Enum.

Lemma enum_bit_width_positive (enum : class) : 0 <= enum_bit_width enum.
Proof.
  unfold enum_bit_width.
  pose proof (Z.le_max_l 1 (Z.log2_up (member_count enum))). lia.
Qed.

(** C10: the default value that [EnumField] stores for a member [m] is the
    binary numeral of the integer [m] is, zero-filled to the width of the
    enumeration, so that [int(default_value, 2) == int(m)]; it has at least
    [width] characters, and more when [int(m) >= 2 ** width].  It is not the
    code [m] encodes to: in [ExampleEnum] the member [A], of value 2, encodes
    to 0 and is stored as "10", where the code would read "00"; and [D], of
    value 12, is stored in the four characters "1100" in a field of width
    2. *)
Theorem EnumField_default_value (name : string) (base_index : Z)
    (description : string) (enum : class) (m : member) :
  let field := EnumField.__init__ name base_index description enum m in
  let width := enum_bit_width enum in
  let A := mk_member "ExampleEnum" "A" 2 2 in
  let D := mk_member "ExampleEnum" "D" 12 12 in
  (BitVector.width field = width
   /\ BitVector.default_value field = Binary.format width (int_ m)
   /\ Binary.int (BitVector.default_value field) = Some (int_ m)
   /\ width <= Z.of_nat (String.length (BitVector.default_value field))
   /\ (2 ^ width <= int_ m ->
       width < Z.of_nat (String.length (BitVector.default_value field))))
  /\ (attr ExampleEnum "A" = Some A
      /\ EnumType.convert_to_unsigned_binary (EnumType.mk ExampleEnum) 2 A
         = inr 0
      /\ BitVector.default_value (EnumField.__init__ "a" 2 "b" ExampleEnum A)
         = "10"%string
      /\ Binary.format 2 0 = "00"%string)
  /\ (attr ExampleEnum "D" = Some D
      /\ BitVector.width (EnumField.__init__ "a" 2 "b" ExampleEnum D) = 2
      /\ BitVector.default_value (EnumField.__init__ "a" 2 "b" ExampleEnum D)
         = "1100"%string).
Proof.
  intros field width A D. split; [|split; repeat split].
  subst field. unfold EnumField.__init__, BitVector.__init__. simpl.
  fold width. split; [reflexivity|]. split; [reflexivity|].
  split; [apply int_format|]. split; [apply length_format_ge|].
  apply length_format_gt. apply enum_bit_width_positive.
Qed.

Lemma EnumField_default_value_D :
  Binary.int
    (BitVector.default_value
       (EnumField.__init__ "a" 2 "b" ExampleEnum
          (mk_member "ExampleEnum" "D" 12 12)))
  = Some 12
  /\ 2 < Z.of_nat
          (String.length
             (BitVector.default_value
                (EnumField.__init__ "a" 2 "b" ExampleEnum
                   (mk_member "ExampleEnum" "D" 12 12)))).
Proof.
  destruct (EnumField_default_value "a" 2 "b" ExampleEnum
              (mk_member "ExampleEnum" "D" 12 12))
    as [(_ & _ & Hint & _ & Hlonger) _].
  split; [exact Hint|]. apply Hlonger. vm_compute. discriminate.
Defined.
End EnumFieldClaims.

(** * Further properties of the register array *)

Section RegisterArrayInvariants.
Import RegisterArray.

(** In an array with atomicity every register has the mode of the first. *)
Lemma constructed_same_mode (self : t) :
  constructed self ->
  truthy (atomic self) = true ->
  forall first rest,
    registers self = first :: rest ->
    Forall (fun register => Register.mode register = Register.mode first)
      (registers self).
Proof.
  induction 1 as [name base_index length description atomic self Hinit
                 |name mode description self _ IH].
  - unfold __init__ in Hinit. destruct (negb _); [discriminate|].
    injection Hinit as <-. simpl. discriminate.
  - unfold state_after. rewrite append_register_run.
    destruct (mode_differs self mode) eqn:Hguard; simpl; [exact IH|].
    intros Hatomic first rest Hregisters.
    unfold mode_differs in Hguard. rewrite Hatomic in Hguard.
    destruct (registers self) as [|head tail] eqn:Hself; simpl in *.
    + injection Hregisters as <- <-. repeat constructor.
    + injection Hregisters as <- <-.
      apply bool_decide_eq_false_1 in Hguard.
      apply Forall_cons. split; [done|].
      apply Forall_app. split.
      * specialize (IH Hatomic head tail eq_refl).
        now apply Forall_cons in IH as [_ IH].
      * repeat constructor. simpl.
        destruct (decide (mode = Register.mode head)); [done|tauto].
Qed.

(** X1: in every array built by the constructor and calls of
    [append_register], [atomic] is [None], "row" or "all", and the indices
    of the registers are 0, 1, 2, ... in the order of the sequence. *)
Theorem constructed_atomic_and_indices (self : t) :
  constructed self ->
  (atomic self = None \/ atomic self = Some "row"%string
   \/ atomic self = Some "all"%string)
  /\ Register.index <$> registers self
     = Z.of_nat <$> seq 0 (List.length (registers self)).
Proof.
  intros Hself. split.
  - apply constructed_atomic in Hself. unfold atomic_allowed in Hself.
    repeat (apply orb_prop in Hself as [Hself | Hself]);
      apply bool_decide_eq_true_1 in Hself; auto.
  - apply constructed_indexed in Hself. apply list_eq. intros i.
    rewrite !list_lookup_fmap.
    destruct (registers self !! i) as [register|] eqn:Hi; simpl.
    + rewrite (Hself i register Hi).
      apply lookup_lt_Some in Hi. now rewrite lookup_seq_lt.
    + apply lookup_ge_None in Hi. now rewrite lookup_seq_ge.
Qed.

Lemma constructed_atomic_and_indices_row_array :
  Register.index <$> registers (row_array 7) = [0; 1].
Proof.
  destruct (constructed_atomic_and_indices (row_array 7)
              (row_array_constructed 7)) as [_ Hindices].
  exact Hindices.
Defined.

(** X2: in a built array whose atomicity is "row" or "all", all registers
    have one and the same mode. *)
Theorem constructed_atomic_uniform_mode (self : t)
    (one other : Register.t) :
  constructed self ->
  atomic self = Some "row"%string \/ atomic self = Some "all"%string ->
  one ∈ registers self -> other ∈ registers self ->
  Register.mode one = Register.mode other.
Proof.
  intros Hself Hatomic%truthy_row_all Hone Hother.
  destruct (registers self) as [|first rest] eqn:Hregisters.
  - now apply elem_of_nil in Hone.
  - pose proof (constructed_same_mode self Hself Hatomic first rest Hregisters)
      as Hall.
    rewrite Hregisters in Hall. rewrite Forall_forall in Hall.
    now rewrite (Hall one Hone), (Hall other Hother).
Qed.

Lemma constructed_atomic_uniform_mode_row_array :
  Register.mode (Register.__init__ "first" 0 r "")
  = Register.mode (Register.__init__ "second" 1 r "").
Proof.
  apply (constructed_atomic_uniform_mode (row_array 0)).
  - apply row_array_constructed.
  - now left.
  - apply list_elem_of_In. simpl. tauto.
  - apply list_elem_of_In. simpl. tauto.
Defined.
End RegisterArrayInvariants.

Section RegisterArrayAddresses.
Import RegisterArray.

(** X3: in a built array, the index in the register list of the register at
    position [a] of repetition [i], [get_start_index(i)] plus the register's
    own index, lies between [base_index] and the property [index], and two
    such indices are equal only for the same repetition and the same
    register: repetitions do not overlap. *)
Theorem register_indices_disjoint (self : t) (i j start_i start_j : Z)
    (a b : nat) (reg_a reg_b : Register.t) :
  constructed self ->
  0 <= i -> 0 <= j ->
  get_start_index self i = inr start_i ->
  get_start_index self j = inr start_j ->
  registers self !! a = Some reg_a ->
  registers self !! b = Some reg_b ->
  base_index self <= start_i + Register.index reg_a <= index self
  /\ (start_i + Register.index reg_a = start_j + Register.index reg_b ->
      i = j /\ a = b).
Proof.
  intros Hself%constructed_indexed Hi Hj Hstart_i Hstart_j Ha Hb.
  rewrite (Hself a reg_a Ha), (Hself b reg_b Hb).
  apply lookup_lt_Some in Ha, Hb.
  revert Hstart_i Hstart_j. unfold get_start_index, index, len.
  case_bool_decide as Hi'; [discriminate|].
  case_bool_decide as Hj'; [discriminate|].
  intros [= <-] [= <-].
  set (n := Z.of_nat (List.length (registers self))) in *.
  assert (0 <= Z.of_nat a < n) by (subst n; lia).
  assert (0 <= Z.of_nat b < n) by (subst n; lia).
  split; [nia|].
  intros Hsame.
  assert (i = j) by nia. subst j. split; [done | lia].
Qed.

Lemma register_indices_disjoint_row_array :
  10 <= 14 + 1 <= index (row_array 10).
Proof.
  destruct (register_indices_disjoint (row_array 10) 2 0 14 10 1 0
              (Register.__init__ "second" 1 r "")
              (Register.__init__ "first" 0 r "")
              (row_array_constructed 10))
    as [Hrange _]; try reflexivity; try lia.
  exact Hrange.
Defined.

(** X4: an accepted [append_register] makes the array [length] indices
    longer and moves the start of repetition [i] up by [i]; a call that
    raises changes neither. *)
Theorem append_register_grows (self : t) (name : string) (mode : Mode)
    (description : string) (array_index : Z) :
  array_index < length self ->
  let self' := state_after (append_register name mode description) self in
  match outcome (append_register name mode description) self with
  | inr _ =>
      index self' = index self + length self
      /\ get_start_index self' array_index
         = inr (base_index self + array_index * len self + array_index)
  | inl _ =>
      index self' = index self
      /\ get_start_index self' array_index = get_start_index self array_index
  end.
Proof.
  intros Hbelow. unfold outcome, state_after. rewrite append_register_run.
  destruct (mode_differs self mode); simpl; [done|].
  unfold index, get_start_index, len. simpl.
  rewrite length_app. simpl.
  rewrite bool_decide_eq_false_2 by lia. split; [lia | f_equal; lia].
Qed.

Lemma append_register_grows_row_array :
  index (state_after (append_register "third" r "") (row_array 10)) = 18
  /\ get_start_index
       (state_after (append_register "third" r "") (row_array 10)) 2
     = inr 16.
Proof.
  apply (append_register_grows (row_array 10) "third" r "" 2). simpl. lia.
Defined.
End RegisterArrayAddresses.

Section RegisterArrayLookup.
Import RegisterArray.

Lemma find_register_first (before after : list Register.t)
    (register : Register.t) (name : string) :
  Register.name register = name ->
  Forall (fun other => Register.name other <> name) before ->
  find_register (before ++ register :: after) name = Some register.
Proof.
  intros Hname Hbefore.
  induction Hbefore as [|head before Hhead _ IH]; simpl.
  - now rewrite bool_decide_eq_true_2.
  - now rewrite bool_decide_eq_false_2.
Qed.

(** X5: [get_register] returns a register exactly when it is the first one
    of the sequence with the requested name, and raises exactly when no
    register has the name. *)
Theorem get_register_first_match (self : t) (name : string) :
  (forall register,
     get_register self name = inr register <->
     exists before after,
       registers self = before ++ register :: after
       /\ Register.name register = name
       /\ Forall (fun other => Register.name other <> name) before)
  /\ (get_register self name
        = inl (register_not_found name (RegisterArray.name self)) <->
      Forall (fun other => Register.name other <> name) (registers self)).
Proof.
  unfold get_register. split.
  - intros register. split.
    + destruct (find_register (registers self) name) as [found|] eqn:Hfind;
        [|discriminate].
      intros [= <-]. now apply find_register_Some.
    + intros (before & after & -> & Hname & Hbefore).
      now rewrite find_register_first.
  - rewrite <- find_register_None.
    destruct (find_register (registers self) name); split; congruence.
Qed.

(** X6: in an array whose registers have distinct names, every register is
    what [get_register] returns for its name. *)
Theorem get_register_each (self : t) (register : Register.t) :
  NoDup (Register.name <$> registers self) ->
  register ∈ registers self ->
  get_register self (Register.name register) = inr register.
Proof.
  intros Hnodup (before & after & Hsplit)%list_elem_of_split.
  unfold get_register. rewrite Hsplit in Hnodup |- *.
  rewrite find_register_first; [reflexivity | reflexivity |].
  rewrite fmap_app, fmap_cons in Hnodup.
  apply NoDup_app in Hnodup as (_ & Hdisjoint & _).
  apply Forall_forall. intros other Hother Hsame.
  apply (Hdisjoint (Register.name other)).
  - apply list_elem_of_fmap. now exists other.
  - rewrite Hsame. left.
Qed.

Lemma get_register_each_row_array :
  get_register (row_array 0) "second" = inr (Register.__init__ "second" 1 r "").
Proof.
  apply (get_register_each (row_array 0) (Register.__init__ "second" 1 r "")).
  - simpl. repeat constructor; rewrite ?elem_of_nil, ?list_elem_of_singleton;
      try discriminate; tauto.
  - apply list_elem_of_In. simpl. tauto.
Defined.

(** X7: [append_register] never changes what [get_register] returns for a
    name that a register already has, nor the outcome for any name other
    than the appended one. *)
Theorem get_register_stable (self : t) (name : string) (mode : Mode)
    (description : string) (wanted : string) :
  let self' := state_after (append_register name mode description) self in
  (forall register,
     get_register self wanted = inr register ->
     get_register self' wanted = inr register)
  /\ (wanted <> name ->
      get_register self' wanted = get_register self wanted).
Proof.
  unfold state_after. rewrite append_register_run.
  destruct (mode_differs self mode); simpl; [done|].
  unfold get_register. simpl. rewrite find_register_app.
  destruct (find_register (registers self) wanted); split; try done.
  intros Hother. simpl. now rewrite bool_decide_eq_false_2 by congruence.
Qed.
End RegisterArrayLookup.

Section RegisterArrayRuns.
Import RegisterArray.

Lemma appended_next (held : Z) (calls : list (string * Mode * string)) :
  imap (appended (held + 1)) calls = imap (appended held ∘ S) calls.
Proof.
  apply imap_ext. intros i [[name mode] description] _. simpl.
  f_equal. lia.
Qed.

Lemma len_registers_append (self : t) (register : Register.t) :
  len (registers_append register self) = len self + 1.
Proof. unfold len. simpl. rewrite length_app. simpl. lia. Qed.

Lemma append_registers_cons (name : string) (mode : Mode)
    (description : string) (calls : list (string * Mode * string))
    (self : t) :
  append_registers ((name, mode, description) :: calls) self
  = append_registers calls
      (state_after (append_register name mode description) self).
Proof. reflexivity. Qed.

(** X8: on an array with no atomicity every call of a run is accepted: the
    run appends one register per call, in order, each with the name, mode
    and description of its call and with the next free index. *)
Theorem append_registers_not_atomic (calls : list (string * Mode * string))
    (self : t) :
  atomic self = None ->
  registers (append_registers calls self)
  = registers self ++ imap (appended (len self)) calls.
Proof.
  revert self. induction calls as [|[[name mode] description] calls IH];
    intros self Hatomic.
  - simpl. now rewrite app_nil_r.
  - rewrite append_registers_cons.
    unfold state_after. rewrite append_register_run.
    assert (Hguard : mode_differs self mode = false).
    { unfold mode_differs. rewrite Hatomic. now destruct (registers self). }
    rewrite Hguard. simpl snd.
    rewrite IH by exact Hatomic.
    rewrite len_registers_append, appended_next, imap_cons. simpl.
    rewrite <- app_assoc. simpl. repeat f_equal. lia.
Qed.

Lemma append_registers_not_atomic_three :
  registers
    (append_registers [("a", r, ""); ("b", w, ""); ("c", r_w, "")]%string
       (empty_array 0 None))
  = [Register.__init__ "a" 0 r ""; Register.__init__ "b" 1 w "";
     Register.__init__ "c" 2 r_w ""].
Proof.
  apply (append_registers_not_atomic
           [("a", r, ""); ("b", w, ""); ("c", r_w, "")]%string
           (empty_array 0 None)).
  reflexivity.
Defined.

(** X9: on an array with atomicity that holds a register, a run appends
    exactly the calls whose mode is the mode of the first register, in
    order and with consecutive indices; the other calls raise and leave no
    trace. *)
Theorem append_registers_atomic (calls : list (string * Mode * string))
    (self : t) (first : Register.t) (rest : list Register.t) :
  truthy (atomic self) = true ->
  registers self = first :: rest ->
  registers (append_registers calls self)
  = registers self
    ++ imap (appended (len self))
         (filter (fun call => call.1.2 = Register.mode first) calls).
Proof.
  revert self rest.
  induction calls as [|[[name mode] description] calls IH];
    intros self rest Hatomic Hregisters.
  - simpl. now rewrite app_nil_r.
  - rewrite append_registers_cons.
    unfold state_after. rewrite append_register_run.
    assert (Hguard : mode_differs self mode
                     = bool_decide (mode <> Register.mode first)).
    { unfold mode_differs. now rewrite Hregisters, Hatomic. }
    rewrite Hguard.
    destruct (decide (mode = Register.mode first)) as [Hmode|Hmode].
    + rewrite bool_decide_eq_false_2 by tauto. cbn [snd].
      rewrite filter_cons_True by (simpl; congruence).
      rewrite (IH _ (rest ++ [Register.__init__ name (len self) mode
                                 description])); [|exact Hatomic|].
      * rewrite len_registers_append, appended_next, imap_cons. simpl.
        rewrite <- app_assoc. simpl. repeat f_equal. lia.
      * simpl. now rewrite Hregisters.
    + rewrite bool_decide_eq_true_2 by exact Hmode. cbn [snd].
      rewrite filter_cons_False by (simpl; congruence).
      now apply (IH self rest).
Qed.

Lemma append_registers_atomic_row_array :
  registers
    (append_registers [("a", w, ""); ("b", r, ""); ("c", r_w, "")]%string
       (row_array 0))
  = [Register.__init__ "first" 0 r ""; Register.__init__ "second" 1 r "";
     Register.__init__ "b" 2 r ""].
Proof.
  apply (append_registers_atomic
           [("a", w, ""); ("b", r, ""); ("c", r_w, "")]%string
           (row_array 0) (Register.__init__ "first" 0 r "")
           [Register.__init__ "second" 1 r ""]); reflexivity.
Defined.

(** X15: a run of [append_register] calls, whatever they are, leaves the
    name, base index, length, description and atomicity of the array as
    they were, keeps the registers it held, in place and unchanged, and adds
    at most one register per call. *)
Theorem append_registers_only_appends
    (calls : list (string * Mode * string)) (self : t) :
  RegisterArray.name (append_registers calls self) = RegisterArray.name self
  /\ base_index (append_registers calls self) = base_index self
  /\ length (append_registers calls self) = length self
  /\ RegisterArray.description (append_registers calls self)
     = RegisterArray.description self
  /\ atomic (append_registers calls self) = atomic self
  /\ exists added,
       registers (append_registers calls self) = registers self ++ added
       /\ (List.length added <= List.length calls)%nat.
Proof.
  revert self. induction calls as [|[[name mode] description] calls IH];
    intros self.
  - simpl. repeat split. exists []. now rewrite app_nil_r.
  - rewrite append_registers_cons.
    specialize (IH (state_after (append_register name mode description) self)).
    revert IH. unfold state_after. rewrite append_register_run.
    destruct (mode_differs self mode); cbn [snd].
    + intros (? & ? & ? & ? & ? & added & Hadded & Hcount).
      repeat split; try done. exists added. split; [done | simpl; lia].
    + simpl. intros (? & ? & ? & ? & ? & added & Hadded & Hcount).
      repeat split; try done.
      exists (Register.__init__ name (len self) mode description :: added).
      split; [now rewrite Hadded, <- app_assoc | simpl; lia].
Qed.
End RegisterArrayRuns.

(** * Further properties of the enumerations *)

Section SequentialEnumProperties.
Import Enum SequentialEnum.

Lemma add_member_sequential_int (cls cls' : class) (key : string)
    (args : list Z) :
  in_sequence cls ->
  add_member SequentialEnum.__new__ cls (key, args) = inr cls' ->
  exists m, _member_map_ cls' = _member_map_ cls ++ [(key, m)]
            /\ int__new__ args = inr (int_ m).
Proof.
  intros Hcls. unfold add_member, SequentialEnum.__new__, __members__.
  destruct (int__new__ args) as [e|obj]; [discriminate|]. simpl.
  rewrite in_sequence_fresh_value by exact Hcls.
  intros [= <-]. simpl. now eexists.
Qed.

Lemma add_members_sequential_ints (body : list (string * list Z))
    (cls cls' : class) :
  in_sequence cls ->
  add_members SequentialEnum.__new__ cls body = inr cls' ->
  exists entries,
    _member_map_ cls' = _member_map_ cls ++ entries
    /\ forall (i : nat) (key : string) (args : list Z),
         body !! i = Some (key, args) ->
         exists m, entries !! i = Some (key, m)
                   /\ int__new__ args = inr (int_ m).
Proof.
  revert cls. induction body as [|[key args] body IH]; intros cls Hcls;
    cbn [add_members].
  - intros [= <-]. exists []. now rewrite app_nil_r.
  - destruct (add_member SequentialEnum.__new__ cls (key, args))
      as [e|next] eqn:Hnext; [discriminate|].
    destruct (add_member_in_sequence _ _ _ _ Hcls Hnext) as [Hseq _].
    destruct (add_member_sequential_int _ _ _ _ Hcls Hnext)
      as (m & Hmap & Hint).
    intros (entries & Hentries & Hith)%(IH _ Hseq).
    exists ((key, m) :: entries). split.
    + now rewrite Hentries, Hmap, <- app_assoc.
    + intros [|i] key' args'; simpl; [|now apply Hith].
      intros [= <- <-]. now exists m.
Qed.

(** What a returned class statement has established. *)
Lemma subclass_in_sequence (name : string) (body : list (string * list Z))
    (cls : class) :
  SequentialEnum.subclass name body = inr cls ->
  in_sequence cls
  /\ NoDup body.*1
  /\ (_member_map_ cls).*1 = body.*1
  /\ members cls = (_member_map_ cls).*2.
Proof.
  intros (_ & Hnodup & Hbody)%class_statement_inr.
  apply add_members_in_sequence in Hbody as [Hseq Hkeys];
    [|split; [done | intros i key m Hi; now destruct i]].
  simpl in Hkeys.
  split; [exact Hseq|]. split; [exact Hnodup|]. split; [exact Hkeys|].
  unfold members. rewrite (no_alias _ Hseq).
  apply (lookup_members_in_order []). simpl. now rewrite Hkeys.
Qed.

(** X10: in a class declared with [SequentialEnum], the integer that the
    member defined at position [i] is, is the [int] of the arguments of its
    definition (0 for [()], [v] for [v]) and not its value: with all
    definitions [()], every member is the integer 0. *)
Theorem SequentialEnum_member_int (name : string)
    (body : list (string * list Z)) (cls : class) (i : nat) (key : string)
    (args : list Z) :
  SequentialEnum.subclass name body = inr cls ->
  body !! i = Some (key, args) ->
  exists m, members cls !! i = Some m
            /\ int__new__ args = inr (int_ m)
            /\ (args = [] -> int_ m = 0)
            /\ (forall v, args = [v] -> int_ m = v).
Proof.
  intros Hcls Hi.
  destruct (subclass_in_sequence _ _ _ Hcls) as (_ & _ & _ & Hmembers).
  apply class_statement_inr in Hcls as (_ & _ & Hcls).
  apply add_members_sequential_ints in Hcls as (entries & Hmap & Hith);
    [|split; [done | intros j key' m Hj; now destruct j]].
  simpl in Hmap. destruct (Hith i key args Hi) as (m & Hentry & Hint).
  exists m. split; [|split; [exact Hint|split]].
  - now rewrite Hmembers, Hmap, list_lookup_fmap, Hentry.
  - intros ->. simpl in Hint. congruence.
  - intros v ->. simpl in Hint. congruence.
Qed.

Lemma SequentialEnum_member_int_Example :
  int_ <$> members Example = [0; 0; 0; 0]
  /\ exists m, members Example !! 1%nat = Some m /\ int_ m = 0.
Proof.
  split; [reflexivity|].
  destruct (SequentialEnum_member_int "Example"
              [("A", []); ("B", []); ("C", []); ("D", [])]%string
              Example 1 "B" [] eq_refl eq_refl)
    as (m & Hm & _ & Hzero & _).
  exists m. split; [exact Hm | now apply Hzero].
Defined.



(** X12: in a class declared with [SequentialEnum], every member's value
    is a number of [enum_bit_width] bits: [0 <= value < 2 ** width]. *)
Theorem SequentialEnum_value_fits_width (name : string)
    (body : list (string * list Z)) (cls : class) (m : member) :
  SequentialEnum.subclass name body = inr cls ->
  m ∈ members cls ->
  0 <= _value_ m < 2 ^ enum_bit_width cls.
Proof.
  intros Hcls Hm.
  destruct (subclass_in_sequence _ _ _ Hcls)
    as ([Hnames Hposition] & _ & _ & Hmembers).
  rewrite Hmembers in Hm.
  apply list_elem_of_lookup_1 in Hm as [i Hi].
  rewrite list_lookup_fmap in Hi.
  destruct (_member_map_ cls !! i) as [[key m']|] eqn:Hentry; [|done].
  injection Hi as ->.
  destruct (Hposition i key m Hentry) as [_ ->].
  apply lookup_lt_Some in Hentry.
  unfold enum_bit_width, member_count. rewrite Hnames, length_fmap.
  set (n := Z.of_nat (length (_member_map_ cls))) in *.
  assert (Hi : 0 <= Z.of_nat i < n) by (subst n; lia).
  split; [lia|].
  destruct (Z.max_spec 1 (Z.log2_up n)) as [[Hlt ->] | [Hle ->]].
  - destruct (Z_le_gt_dec n 1) as [Hone|Hmany].
    + rewrite Z.log2_up_eqn0 in Hlt by exact Hone. lia.
    + destruct (Z.log2_up_spec n) as [_ Hup]; lia.
  - assert (n <= 2 ^ 1); [|lia].
    destruct (Z_le_gt_dec n 1) as [Hone|Hmany]; [simpl; lia|].
    destruct (Z.log2_up_spec n) as [_ Hup]; [lia|].
    assert (2 ^ Z.log2_up n <= 2 ^ 1) by (apply Z.pow_le_mono_r; lia).
    lia.
Qed.

Lemma SequentialEnum_value_fits_width_Example :
  0 <= 3 < 2 ^ enum_bit_width Example.
Proof.
  apply (SequentialEnum_value_fits_width "Example"
           [("A", []); ("B", []); ("C", []); ("D", [])]%string
           Example (mk_member "Example" "D" 0 3) eq_refl).
  apply list_elem_of_In. simpl. tauto.
Defined.
End SequentialEnumProperties.

Section EnumFieldProperties.
Import Enum Binary.

(** A number has at least the power of two of one digit less. *)
Lemma size_nat_below (p : positive) :
  2 ^ Z.of_nat (Pos.size_nat p) <= 2 * Z.pos p.
Proof.
  induction p as [q IH|q IH|]; simpl Pos.size_nat;
    rewrite ?Nat2Z.inj_succ, ?Z.pow_succ_r by lia; simpl; lia.
Qed.

(** A number below [2 ^ width] has at most [width] digits. *)
Lemma length_digits_le (width n : Z) :
  1 <= width -> 0 <= n < 2 ^ width ->
  Z.of_nat (String.length (digits n)) <= width.
Proof.
  intros Hwidth Hn. destruct n as [|p|p]; simpl; [lia| |lia].
  rewrite length_digits_pos. simpl. rewrite Nat.add_0_r.
  pose proof (size_nat_below p) as Hsize.
  destruct (Z_le_gt_dec (Z.of_nat (Pos.size_nat p)) width) as [|Hmore];
    [done|].
  assert (2 ^ (width + 1) <= 2 ^ Z.of_nat (Pos.size_nat p))
    by (apply Z.pow_le_mono_r; lia).
  rewrite Z.pow_add_r in * by lia. lia.
Qed.

(** X13: when the integer of the default member is in [0, 2 ** width), the
    default value that [EnumField] stores is a string of exactly [width]
    binary digits that reads as that integer. *)
Theorem EnumField_default_bit_string (name : string) (base_index : Z)
    (description : string) (enum : class) (m : member) :
  0 <= int_ m < 2 ^ enum_bit_width enum ->
  let field := EnumField.__init__ name base_index description enum m in
  Z.of_nat (String.length (BitVector.default_value field))
    = BitVector.width field
  /\ parse_digits (BitVector.default_value field) 0 = Some (int_ m).
Proof.
  intros Hrange field. subst field.
  unfold EnumField.__init__, BitVector.__init__. simpl.
  set (width := enum_bit_width enum) in *.
  assert (Hwidth : 1 <= width).
  { subst width. unfold enum_bit_width.
    pose proof (Z.le_max_l 1 (Z.log2_up (member_count enum))). lia. }
  pose proof (length_digits_le width (int_ m) Hwidth Hrange) as Hdigits.
  unfold format. rewrite bool_decide_eq_false_2 by lia.
  change ("" +:+ ?s)%string with s. split.
  - rewrite length_append, length_zeros. simpl. lia.
  - rewrite parse_digits_filled. f_equal. lia.
Qed.

Lemma EnumField_default_bit_string_A :
  parse_digits
    (BitVector.default_value
       (EnumField.__init__ "a" 2 "b" ExampleEnum
          (mk_member "ExampleEnum" "A" 2 2))) 0
  = Some 2.
Proof.
  apply (EnumField_default_bit_string "a" 2 "b" ExampleEnum
           (mk_member "ExampleEnum" "A" 2 2)).
  vm_compute. split; [discriminate | reflexivity].
Defined.

(** X14: for a default member that is a negative integer, the stored
    default value starts with a minus sign: it is no string of binary
    digits, whatever the width. *)
Theorem EnumField_default_negative (name : string) (base_index : Z)
    (description : string) (enum : class) (m : member) :
  int_ m < 0 ->
  let field := EnumField.__init__ name base_index description enum m in
  (exists rest, BitVector.default_value field = String "-"%char rest)
  /\ parse_digits (BitVector.default_value field) 0 = None.
Proof.
  intros Hnegative field. subst field.
  unfold EnumField.__init__, BitVector.__init__. simpl.
  unfold format. rewrite bool_decide_eq_true_2 by lia.
  split; [now eexists | reflexivity].
Qed.

Lemma EnumField_default_negative_example :
  BitVector.default_value
    (EnumField.__init__ "a" 0 "b" ExampleEnum (mk_member "other" "N" (-2) (-2)))
  = "-10"%string
  /\ exists rest,
       BitVector.default_value
         (EnumField.__init__ "a" 0 "b" ExampleEnum
            (mk_member "other" "N" (-2) (-2)))
       = String "-"%char rest.
Proof.
  split; [reflexivity|].
  apply (EnumField_default_negative "a" 0 "b" ExampleEnum
           (mk_member "other" "N" (-2) (-2))).
  simpl. lia.
Defined.
End EnumFieldProperties.
